(** * og_marl.vault_utils.analyse_vault

    A shallow embedding of [src/og_marl/vault_utils/analyse_vault.py]:
    the episode-return scan ([calculate_returns] and its inner
    [sum_rewards]), the state-action coverage ratio ([get_saco]) and the
    per-dataset driver ([analyse_vault]).

    Conventions.
    - Array elements (float32 in the source) are an abstract carrier [F]
      with the operations the source applies to them; nothing is assumed
      about addition, so every statement also holds for IEEE addition.
    - A one-dimensional array is a [list F]; an array of shape
      [(B, T, N)] is a list of [B] lists of [T] rows of length [N].
    - A Python exception is a [Raise] result. *)

From Stdlib Require Import Strings.String.
From Stdlib Require Import List ZArith QArith Bool Lia PeanoNat.
From Stdlib Require Import Sorting.Sorted.
Import ListNotations.

Close Scope Q_scope.
Open Scope nat_scope.

(** ** Exceptions and results *)

Inductive error : Type :=
| IndexError
| ValueError
| ZeroDivisionError
| TypeError
| StorageError.

Inductive result (A : Type) : Type :=
| Ok (a : A)
| Raise (e : error).

Arguments Ok {A} a.
Arguments Raise {A} e.

Definition rbind {A B : Type} (r : result A) (k : A -> result B) : result B :=
  match r with
  | Ok a => k a
  | Raise e => Raise e
  end.

Declare Scope py_scope.
Delimit Scope py_scope with py.
Notation "x <- r ;; k" := (rbind r (fun x => k))
  (at level 61, r at next level, right associativity) : py_scope.
Local Open Scope py_scope.

Definition is_ok {A : Type} (r : result A) : bool :=
  match r with Ok _ => true | Raise _ => false end.

(** ** Array elements *)

Class Scalar (F : Type) : Type := {
  fzero : F;                  (* 0.0 *)
  fone : F;                   (* 1.0 *)
  fadd : F -> F -> F;         (* x + y *)
  feqb : F -> F -> bool;      (* x == y *)
  fltb : F -> F -> bool       (* x < y *)
}.

(** The only facts about the carrier that the development uses: how
    [==] behaves on the two flag values. *)
Class FlagLaws (F : Type) `{Scalar F} : Prop := {
  feqb_zero_zero : feqb fzero fzero = true;
  feqb_one_one : feqb fone fone = true;
  feqb_zero_one : feqb fzero fone = false;
  feqb_one_zero : feqb fone fzero = false
}.

Arguments FlagLaws F {_}.

#[export] Instance Z_Scalar : Scalar Z := {
  fzero := 0%Z;
  fone := 1%Z;
  fadd := Z.add;
  feqb := Z.eqb;
  fltb := Z.ltb
}.

#[export] Instance Z_FlagLaws : FlagLaws Z.
Proof. split; reflexivity. Defined.

(** ** The scan of [calculate_returns] *)

Section ReturnScan.

Context {F : Type} `{Scalar F}.

(** [x.all()] on a scalar, and the truth value of a float. *)
Definition truthy (x : F) : bool := negb (feqb x fzero).

(** [jnp.array(b, dtype=jnp.float32)] on a boolean. *)
Definition of_bool (b : bool) : F := if b then fone else fzero.

(** [a[0]] on a one-dimensional array. *)
Definition getitem0 {A : Type} (a : list A) : result A :=
  match a with
  | [] => Raise IndexError
  | x :: _ => Ok x
  end.

(** [jnp.zeros_like(x)] on a scalar. *)
Definition zeros_like (x : F) : F := fzero.

(** [jnp.pad(a, ((1, 0)))]: one zero in front, nothing behind. *)
Definition jnp_pad_1_0 (a : list F) : list F := fzero :: a.

(** [a[:-1]]. *)
Definition drop_last {A : Type} (a : list A) : list A := removelast a.

(** The body of the scan:
    [new_carry = carry + reward], replaced by [reward] when the
    (shifted) terminal flag is set; the new carry is also the output. *)
Definition scan_fn (carry : F) (inputs : F * F) : F * F :=
  let '(terminal, reward) := inputs in
  let new_carry := fadd carry reward in
  let new_carry := if truthy terminal then reward else new_carry in
  (new_carry, new_carry).

(** [jax.lax.scan(f, init, xs)] over an already zipped [xs]. *)
Fixpoint lax_scan {C X Y : Type} (f : C -> X -> C * Y) (init : C) (xs : list X)
  : C * list Y :=
  match xs with
  | [] => (init, [])
  | x :: xs' =>
      let '(c, y) := f init x in
      let '(c', ys) := lax_scan f c xs' in
      (c', y :: ys)
  end.

(** The [xs] argument of the scan is a pair of arrays; [lax.scan]
    refuses leaves whose leading axes differ. *)
Definition scan_leaves {A B : Type} (a : list A) (b : list B)
  : result (list (A * B)) :=
  if Nat.eqb (length a) (length b) then Ok (combine a b) else Raise ValueError.

(** Selection by a boolean mask, [a[mask]]. *)
Fixpoint boolean_mask {A : Type} (mask : list bool) (a : list A) : list A :=
  match mask, a with
  | m :: mask', x :: a' =>
      if m then x :: boolean_mask mask' a' else boolean_mask mask' a'
  | _, _ => []
  end.

Definition getitem_mask {A : Type} (mask : list bool) (a : list A)
  : result (list A) :=
  if Nat.eqb (length mask) (length a) then Ok (boolean_mask mask a)
  else Raise IndexError.

(** [sum_rewards(terminals, rewards)], the inner function of
    [calculate_returns], on one-dimensional arrays. *)
Definition sum_rewards (terminals rewards : list F) : result (list F) :=
  t0 <- getitem0 terminals ;;
  let init := zeros_like t0 in
  xs <- scan_leaves (drop_last (jnp_pad_1_0 terminals)) rewards ;;
  let '(_, cumulative_rewards) := lax_scan scan_fn init xs in
  getitem_mask (map (fun t => feqb t fone) terminals) cumulative_rewards.

End ReturnScan.

(** ** Stored experience and [calculate_returns] *)

Section Arrays.

Context {F : Type} `{Scalar F}.

(** An array of shape [(B, T, N)]. *)
Definition tensor3 : Type := list (list (list F)).

(** One agent's action at one timestep: a scalar (discrete actions) or
    an array of any further shape. *)
#[warnings="-register-all"] Inductive nd : Type :=
| Sc (x : F)
| Nd (l : list nd).

(** The experience of a vault: the leaves this module reads (a vault
    stores further leaves of the same leading shape).  The source
    comment gives the shape as [(1, T, N, *E)]. *)
Record Experience : Type := {
  rewards : tensor3;                     (* experience["rewards"],   (B, T, N) *)
  terminals : tensor3;                   (* experience["terminals"], (B, T, N) *)
  actions : list (list (list nd));       (* experience["actions"],   (B, T, N, *A) *)
  infos_state : tensor3                  (* experience["infos"]["state"], (B, T, S) *)
}.

Fixpoint map_result {A B : Type} (f : A -> result B) (l : list A)
  : result (list B) :=
  match l with
  | [] => Ok []
  | x :: l' => y <- f x ;; ys <- map_result f l' ;; Ok (y :: ys)
  end.

(** [x[0, :, 0, ...]]: batch entry 0, every timestep, agent 0. *)
Definition slice_one_agent {A : Type} (x : list (list (list A)))
  : result (list A) :=
  b0 <- getitem0 x ;;
  map_result getitem0 b0.

(** What [jax.tree_map(lambda x: x[0, :, 0, ...], experience)] leaves of
    each array. *)
Record ExperienceOneAgent : Type := {
  rewards1 : list F;
  terminals1 : list F;
  actions1 : list nd;
  infos_state1 : list F
}.

Definition tree_map_slice (experience : Experience) : result ExperienceOneAgent :=
  a <- slice_one_agent (actions experience) ;;
  s <- slice_one_agent (infos_state experience) ;;
  r <- slice_one_agent (rewards experience) ;;
  t <- slice_one_agent (terminals experience) ;;
  Ok {| rewards1 := r; terminals1 := t; actions1 := a; infos_state1 := s |}.

(** [a.all(axis=-1)] on a two-dimensional array. *)
Definition all_last_axis (a : list (list F)) : list bool :=
  map (forallb truthy) a.

(** The result of [.squeeze()] on a one-dimensional array: every axis of
    length one is removed, so a single entry becomes a 0-d array. *)
Inductive squeezed (A : Type) : Type :=
| Dim0 (x : A)
| Dim1 (l : list A).

Arguments Dim0 {A} x.
Arguments Dim1 {A} l.

Definition squeeze {A : Type} (a : list A) : squeezed A :=
  match a with
  | [x] => Dim0 x
  | _ => Dim1 a
  end.

Definition squeezed_map {A B : Type} (f : A -> B) (a : squeezed A) : squeezed B :=
  match a with
  | Dim0 x => Dim0 (f x)
  | Dim1 l => Dim1 (map f l)
  end.

(** [calculate_returns(experience)], with [reward_key] and
    [terminal_key] at their defaults.  [sum_rewards] starts with
    [terminals[0]], which a 0-d array refuses. *)
Definition calculate_returns (experience : Experience) : result (list F) :=
  experience_one_agent <- tree_map_slice experience ;;
  let rewards := rewards1 experience_one_agent in
  t0 <- getitem0 (terminals experience) ;;
  let terminals := squeezed_map of_bool (squeeze (all_last_axis t0)) in
  match terminals with
  | Dim0 _ => Raise IndexError
  | Dim1 terminals => sum_rewards terminals rewards
  end.

(** ** [get_saco] on arrays *)

(** [a.shape[1]]. *)
Definition shape1 {A : Type} (a : list (list A)) : nat :=
  match a with
  | [] => 0
  | b :: _ => length b
  end.

(** The entries of an array in row-major order. *)
Fixpoint ravel (a : nd) : list F :=
  match a with
  | Sc x => [x]
  | Nd l => flat_map ravel l
  end.

(** [a.reshape] to the two leading lengths of [a.shape] followed by
    [-1], on the array the vault returns (a JAX array): everything
    behind the time axis is flattened into one row.  The length standing for [-1] is the array's size divided by
    the product of the two leading lengths; when that product is zero,
    the batch or the time axis being empty, it cannot be inferred and
    the call raises [TypeError]. *)
Definition reshape_keep2 (a : list (list (list nd))) : result tensor3 :=
  if Nat.eqb (shape1 a) 0 then Raise TypeError
  else Ok (map (map (flat_map ravel)) a).

Fixpoint zip_strict {A B C : Type} (f : A -> B -> result C)
  (a : list A) (b : list B) : result (list C) :=
  match a, b with
  | [], [] => Ok []
  | x :: a', y :: b' =>
      c <- f x y ;; cs <- zip_strict f a' b' ;; Ok (c :: cs)
  | _, _ => Raise ValueError
  end.

(** [np.concatenate((a, b), axis=-1)]: the two leading axes must agree. *)
Definition np_concatenate_last (a b : tensor3) : result tensor3 :=
  zip_strict (zip_strict (fun r s => Ok (r ++ s))) a b.

Fixpoint lex_ltb (a b : list F) : bool :=
  match a, b with
  | [], [] => false
  | [], _ :: _ => true
  | _ :: _, [] => false
  | x :: a', y :: b' =>
      if fltb x y then true
      else if fltb y x then false
      else lex_ltb a' b'
  end.

Fixpoint row_eqb (a b : list F) : bool :=
  match a, b with
  | [], [] => true
  | x :: a', y :: b' => feqb x y && row_eqb a' b'
  | _, _ => false
  end.

Fixpoint insert_sorted (k : list F * nat) (l : list (list F * nat))
  : list (list F * nat) :=
  match l with
  | [] => [k]
  | h :: t => if lex_ltb (fst h) (fst k) then h :: insert_sorted k t else k :: l
  end.

Definition sort_slices (l : list (list F * nat)) : list (list F * nat) :=
  fold_right insert_sorted [] l.

(** After sorting, an entry is kept when it differs from the one before. *)
Fixpoint keep_changes (prev : list F) (l : list (list F * nat))
  : list (list F * nat) :=
  match l with
  | [] => []
  | h :: t =>
      if row_eqb prev (fst h) then keep_changes (fst h) t
      else h :: keep_changes (fst h) t
  end.

Definition unique_sorted (l : list (list F * nat)) : list (list F * nat) :=
  match l with
  | [] => []
  | h :: t => h :: keep_changes (fst h) t
  end.

(** The slice [a[:, t, :]], flattened. *)
Definition slice_axis1 (a : tensor3) (t : nat) : list F :=
  flat_map (fun b => nth t b []) a.

(** The positions along axis 1 of one representative of every distinct
    slice, in sorted order of the slices. *)
Definition unique_positions (a : tensor3) : list nat :=
  map snd
    (unique_sorted
       (sort_slices (map (fun t => (slice_axis1 a t, t)) (seq 0 (shape1 a))))).

(** [np.unique(a, axis=1)]: shape [(B, T, D)] becomes [(B, U, D)]. *)
Definition np_unique_axis1 (a : tensor3) : tensor3 :=
  let idx := unique_positions a in
  map (fun b => map (fun t => nth t b []) idx) a.

(** [n / m] on Python integers. *)
Definition true_div (n m : nat) : result Q :=
  match m with
  | O => Raise ZeroDivisionError
  | S _ => Ok (Z.of_nat n # Pos.of_nat m)%Q
  end.

(** The body of [get_saco] after the vault has been read. *)
Definition saco_of (offline_data : Experience) : result Q :=
  let states := infos_state offline_data in
  let num_tot := shape1 states in
  reshaped_actions <- reshape_keep2 (actions offline_data) ;;
  state_pairs <- np_concatenate_last states reshaped_actions ;;
  let unique_vals := np_unique_axis1 state_pairs in
  true_div (length unique_vals) num_tot.

End Arrays.

Arguments Dim0 {A} x.
Arguments Dim1 {A} l.
Arguments nd F : clear implicits.
Arguments Experience F : clear implicits.
Arguments ExperienceOneAgent F : clear implicits.
Arguments tensor3 F : clear implicits.

(** ** The process state: vault files, directory listing, generator, figures *)

(** A Python [dict] with string keys: insertion ordered; assigning to a
    key that is present keeps its position. *)
Definition dict (V : Type) : Type := list (string * V).

Fixpoint dict_set {V : Type} (k : string) (v : V) (d : dict V) : dict V :=
  match d with
  | [] => [(k, v)]
  | (k', v') :: d' =>
      if String.eqb k k' then (k, v) :: d' else (k', v') :: dict_set k v d'
  end.

Fixpoint dict_get {V : Type} (k : string) (d : dict V) : option V :=
  match d with
  | [] => None
  | (k', v') :: d' => if String.eqb k k' then Some v' else dict_get k d'
  end.

Definition dict_keys {V : Type} (d : dict V) : list string := map fst d.
Definition dict_values {V : Type} (d : dict V) : list V := map snd d.

(** Filling a dictionary from a list of keys, each with the value that
    belongs to it. *)
Definition fill {V : Type} (value : string -> V) (keys : list string) (d : dict V)
  : dict V :=
  fold_left (fun d k => dict_set k (value k) d) keys d.

Section Process.

Context {F : Type} `{Scalar F}.

(** The violin plot that [analyse_vault] shows when asked to. *)
Record Figure : Type := {
  fig_title : string;
  fig_data : list (list F);
  fig_xticks : list string
}.

(** Everything outside the arguments that the module can read or
    change.  [vault_files rel_dir vault_name uid] is what
    [Vault(...).read().experience] finds on disk, [uid_dirs path] what
    [get_available_uids path] lists; both belong to other modules.
    [np_random_state] is the state of the global NumPy generator. *)
Record world : Type := {
  vault_files : string -> string -> string -> option (Experience F);
  uid_dirs : string -> list string;
  np_random_state : N;
  figures : list Figure
}.

Definition M (A : Type) : Type := world -> result A * world.

Definition mret {A : Type} (a : A) : M A := fun w => (Ok a, w).

Definition mbind {A B : Type} (m : M A) (k : A -> M B) : M B :=
  fun w =>
    match m w with
    | (Ok a, w') => k a w'
    | (Raise e, w') => (Raise e, w')
    end.

Definition lift {A : Type} (r : result A) : M A := fun w => (r, w).

Definition Vault_read (rel_dir vault_name vault_uid : string)
  : M (Experience F) :=
  fun w =>
    (match vault_files w rel_dir vault_name vault_uid with
     | Some e => Ok e
     | None => Raise StorageError
     end, w).

Definition get_available_uids (path : string) : M (list string) :=
  fun w => (Ok (uid_dirs w path), w).

Definition plt_show (fig : Figure) : M unit :=
  fun w =>
    (Ok tt,
     {| vault_files := vault_files w;
        uid_dirs := uid_dirs w;
        np_random_state := np_random_state w;
        figures := figures w ++ [fig] |}).

End Process.

Arguments world F : clear implicits.
Arguments Figure F : clear implicits.
Arguments M F A : clear implicits.

Notation "x <~ m ;; k" := (mbind m (fun x => k))
  (at level 61, m at next level, right associativity) : py_scope.

Section EntryPoints.

Context {F : Type} `{Scalar F}.

(** [get_saco(rel_dir, vault_name, uid)]. *)
Definition get_saco (rel_dir vault_name uid : string) : M F Q :=
  offline_data <~ Vault_read rel_dir vault_name uid ;;
  lift (saco_of offline_data).

(** A [for] loop that threads the loop state. *)
Fixpoint for_each {A S : Type} (body : S -> A -> M F S) (xs : list A) (s : S)
  : M F S :=
  match xs with
  | [] => mret s
  | x :: xs' => s' <~ body s x ;; for_each body xs' s'
  end.

Definition violin_title (vault_name : string) : string :=
  ("Violin Distributions of Returns for " ++ vault_name)%string.

(** [analyse_vault(vault_name, vault_uids, rel_dir, visualise)]. *)
Definition analyse_vault (vault_name : string)
  (vault_uids : option (list string)) (rel_dir : string) (visualise : bool)
  : M F (dict (list F)) :=
  vault_uids <~ get_available_uids ("./" ++ rel_dir ++ "/" ++ vault_name)%string ;;
  all_uid_returns <~
    for_each
      (fun all_uid_returns uid =>
         exp <~ Vault_read rel_dir vault_name uid ;;
         uid_returns <~ lift (calculate_returns exp) ;;
         mret (dict_set uid uid_returns all_uid_returns))
      vault_uids [] ;;
  _ <~ (if visualise
        then plt_show {| fig_title := violin_title vault_name;
                         fig_data := dict_values all_uid_returns;
                         fig_xticks := dict_keys all_uid_returns |}
        else mret tt) ;;
  mret all_uid_returns.

(** The returns the loop of [analyse_vault] stores under [uid]. *)
Definition returns_of (w : world F) (rel_dir vault_name uid : string) : list F :=
  match vault_files w rel_dir vault_name uid with
  | Some e =>
      match calculate_returns e with
      | Ok r => r
      | Raise _ => []
      end
  | None => []
  end.

(** The directory that [analyse_vault] lists. *)
Definition vault_path (rel_dir vault_name : string) : string :=
  ("./" ++ rel_dir ++ "/" ++ vault_name)%string.

End EntryPoints.

(** ** The scan as the design document words it *)

Section ReturnSpec.

Context {F : Type} `{Scalar F}.

Definition flag_set (t : F) : bool := feqb t fone.

(** Step 1: shift right by one, drop the last flag, lead with a zero. *)
Definition shifted_terminals (terminals : list F) : list F :=
  fzero :: firstn (length terminals - 1) terminals.

(** Steps 2 and 3: add the reward, restart from the reward alone when
    the shifted flag is set, record the carry. *)
Fixpoint reset_scan (carry : F) (shifted rewards : list F) : list F :=
  match shifted, rewards with
  | s :: shifted', r :: rewards' =>
      let carry := fadd carry r in
      let carry := if flag_set s then r else carry in
      carry :: reset_scan carry shifted' rewards'
  | _, _ => []
  end.

(** Step 4: the recorded carries where the original flag is set. *)
Fixpoint select_terminal (terminals cumulative : list F) : list F :=
  match terminals, cumulative with
  | t :: terminals', c :: cumulative' =>
      if flag_set t then c :: select_terminal terminals' cumulative'
      else select_terminal terminals' cumulative'
  | _, _ => []
  end.

Definition compute_returns (terminals rewards : list F) : list F :=
  select_terminal terminals
    (reset_scan fzero (shifted_terminals terminals) rewards).

(** The rewards of the episodes that end inside the batch; [cur] holds
    the rewards of the episode under way. *)
Fixpoint completed_episodes (cur terminals rewards : list F) : list (list F) :=
  match terminals, rewards with
  | t :: terminals', r :: rewards' =>
      if flag_set t then (cur ++ [r]) :: completed_episodes [] terminals' rewards'
      else completed_episodes (cur ++ [r]) terminals' rewards'
  | _, _ => []
  end.

(** The total of one episode, added up from the left.  The first
    episode of a batch starts from the zero carry, a later one from its
    own first reward. *)
Definition episode_total (first : bool) (episode : list F) : F :=
  if first then fold_left fadd episode fzero
  else match episode with
       | [] => fzero
       | r :: rs => fold_left fadd rs r
       end.

Fixpoint episode_totals (first : bool) (episodes : list (list F)) : list F :=
  match episodes with
  | [] => []
  | e :: es => episode_total first e :: episode_totals false es
  end.

(** The number of flags equal to one. *)
Definition count_terminals (terminals : list F) : nat :=
  length (filter flag_set terminals).

(** The scan and the selection fused into one pass: [prev] is the flag
    of the timestep before. *)
Fixpoint returns_from (carry prev : F) (terminals rewards : list F) : list F :=
  match terminals, rewards with
  | t :: terminals', r :: rewards' =>
      let c := if truthy prev then r else fadd carry r in
      if feqb t fone then c :: returns_from c t terminals' rewards'
      else returns_from c t terminals' rewards'
  | _, _ => []
  end.

(** A flag array as [calculate_returns] builds it: zeros and ones. *)
Definition binary_flags (terminals : list F) : Prop :=
  Forall (fun t => t = fzero \/ t = fone) terminals.

(** What the scan state means in terms of the episode under way. *)
Definition carry_tracks (carry prev : F) (cur : list F) (first : bool) : Prop :=
  (truthy prev = true /\ cur = [] /\ first = false)
  \/ (truthy prev = false /\ carry = episode_total first cur
      /\ (first = false -> cur <> [])).

End ReturnSpec.

(** ** The coverage ratio as the design document words it *)

Section SacoSpec.

Context {F : Type} `{Scalar F}.

(** The number of rows that differ from every row before them. *)
Fixpoint count_distinct (seen rows : list (list F)) : nat :=
  match rows with
  | [] => 0
  | r :: rows' =>
      if existsb (row_eqb r) seen then count_distinct seen rows'
      else S (count_distinct (r :: seen) rows')
  end.

(** [compute_saco(states, actions)]: one row per timestep, the state
    followed by the flattened action; distinct rows over timesteps. *)
Definition compute_saco (states actions : list (list F)) : result Q :=
  if Nat.eqb (length states) (length actions)
  then
    let rows := map (fun sa => fst sa ++ snd sa) (combine states actions) in
    true_div (count_distinct [] rows) (length states)
  else Raise ValueError.

End SacoSpec.

(** ** Identifiers in order of first appearance *)

Fixpoint first_occurrences (l : list string) : list string :=
  match l with
  | [] => []
  | x :: xs => x :: filter (fun y => negb (String.eqb x y)) (first_occurrences xs)
  end.

Definition mem_key (k : string) (l : list string) : bool :=
  existsb (String.eqb k) l.

(** ** Concrete batches *)

(** A process whose disk holds the same experience under every name. *)
Definition single_vault {F : Type} `{Scalar F} (e : Experience F) : world F :=
  {| vault_files := fun _ _ _ => Some e;
     uid_dirs := fun _ => [];
     np_random_state := 0%N;
     figures := [] |}.

(** A batch of shape [(1, T, 1)] made of one agent's rewards and flags. *)
Definition one_agent_batch (rewards terminals : list Z) : Experience Z :=
  {| rewards := [map (fun r => [r]) rewards];
     terminals := [map (fun t => [t]) terminals];
     actions := [map (fun _ => [Sc 0%Z]) rewards];
     infos_state := [map (fun r => [r]) rewards] |}.

(** A batch of shape [(1, T, .)] made of state rows and one discrete
    action per timestep. *)
Definition state_action_batch (states : list (list Z)) (actions : list Z)
  : Experience Z :=
  {| rewards := [map (fun _ => [0%Z]) states];
     terminals := [map (fun _ => [0%Z]) states];
     actions := [map (fun a => [Sc a]) actions];
     infos_state := [states] |}.

(** Two datasets of one vault, as [analyse_vault] finds them. *)
Definition two_datasets : world Z :=
  {| vault_files := fun _ _ uid =>
       if String.eqb uid "Good" then
         Some (one_agent_batch [1; 2; 3]%Z [0; 0; 1]%Z)
       else if String.eqb uid "Poor" then
         Some (one_agent_batch [1; 1; 5; 2]%Z [0; 1; 0; 1]%Z)
       else None;
     uid_dirs := fun _ => ["Good"; "Poor"]%string;
     np_random_state := 0%N;
     figures := [] |}.

(** ** What one dataset contributes *)

(** The outcome of the loop body of [analyse_vault] for one identifier:
    reading the vault, then [calculate_returns]. *)
Definition dataset_outcome {F : Type} `{Scalar F} (w : world F)
  (rel_dir vault_name uid : string) : result (list F) :=
  match vault_files w rel_dir vault_name uid with
  | Some e => calculate_returns e
  | None => Raise StorageError
  end.

(** The process after one more figure has been shown. *)
Definition with_figure {F : Type} `{Scalar F} (w : world F) (fig : Figure F)
  : world F :=
  {| vault_files := vault_files w;
     uid_dirs := uid_dirs w;
     np_random_state := np_random_state w;
     figures := figures w ++ [fig] |}.

(** A vault with a dataset that holds a single timestep between two
    good ones. *)
Definition datasets_with_short_one : world Z :=
  {| vault_files := fun _ _ uid =>
       if String.eqb uid "Good" then
         Some (one_agent_batch [1; 2; 3]%Z [0; 0; 1]%Z)
       else if String.eqb uid "Short" then
         Some (one_agent_batch [5]%Z [1]%Z)
       else if String.eqb uid "Poor" then
         Some (one_agent_batch [1; 1; 5; 2]%Z [0; 1; 0; 1]%Z)
       else None;
     uid_dirs := fun _ => ["Good"; "Short"; "Poor"]%string;
     np_random_state := 0%N;
     figures := [] |}.

(** ** Carriers whose comparisons are an order *)

(** [==] decides equality and [<] is a strict total order: what sorting
    and the removal of repeated neighbours rely on.  (It holds for
    integers and for floats without NaN and signed zeros.) *)
Class OrderLaws (F : Type) `{Scalar F} : Prop := {
  feqb_eq : forall x y : F, feqb x y = true <-> x = y;
  fltb_irrefl : forall x : F, fltb x x = false;
  fltb_trans :
    forall x y z : F, fltb x y = true -> fltb y z = true -> fltb x z = true;
  fltb_connected :
    forall x y : F, fltb x y = false -> fltb y x = false -> x = y
}.

Arguments OrderLaws F {_}.

#[export] Instance Z_OrderLaws : OrderLaws Z.
Proof.
  split; cbn.
  - intros x y. apply Z.eqb_eq.
  - intros x. apply Z.ltb_irrefl.
  - intros x y z Hxy Hyz. apply Z.ltb_lt in Hxy, Hyz. apply Z.ltb_lt. lia.
  - intros x y Hxy Hyx. apply Z.ltb_ge in Hxy, Hyx. lia.
Defined.

(** Lexicographic order on rows, as a relation. *)
Definition lex_lt {F : Type} `{Scalar F} (a b : list F) : Prop :=
  lex_ltb a b = true.

(** "Not above" on keyed slices: the order the insertion keeps. *)
Definition key_le {F : Type} `{Scalar F} (p q : list F * nat) : Prop :=
  lex_ltb (fst q) (fst p) = false.

(** The slices of an array along axis 1, in order. *)
Definition slices_axis1 {F : Type} `{Scalar F} (a : tensor3 F) : list (list F) :=
  map (slice_axis1 a) (seq 0 (shape1 a)).

(** ** Bin numbers ([get_bin_numbers]) *)

Section Bins.

Context {F : Type} `{Scalar F}.

(** [get_bin_numbers] indexes [bin_edges] with a growing integer.  What
    happens past the end depends on the array it is given: a NumPy
    array (or a list) raises, a JAX array, which is what
    [bin_processed_data] passes, clamps the index to the last entry. *)
Inductive array_kind : Type :=
| NumPyArray
| JaxArray.

(** [bin_edges[i]] for [i >= 0]. *)
Definition edge_at (kind : array_kind) (bin_edges : list F) (i : nat)
  : result F :=
  match bin_edges with
  | [] => Raise IndexError
  | e0 :: _ =>
      match kind with
      | NumPyArray =>
          match nth_error bin_edges i with
          | Some e => Ok e
          | None => Raise IndexError
          end
      | JaxArray => Ok (nth (Nat.min i (length bin_edges - 1)) bin_edges e0)
      end
  end.

(** The inner [get_bin_number(bin_num, value)].  [depth] is the number
    of frames the interpreter still allows; [None] is [RecursionError]. *)
Fixpoint get_bin_number (depth : nat) (kind : array_kind) (bin_edges : list F)
  (bin_num : nat) (value : F) : option (result nat) :=
  match depth with
  | O => None
  | S depth' =>
      match edge_at kind bin_edges bin_num with
      | Raise e => Some (Raise e)
      | Ok edge =>
          let is_overflowing := fltb edge value in
          if is_overflowing then
            let bin_num := S bin_num in
            match edge_at kind bin_edges bin_num with
            | Raise e => Some (Raise e)
            | Ok edge' =>
                let is_doubly_overflowing := fltb edge' value in
                if is_doubly_overflowing
                then get_bin_number depth' kind bin_edges bin_num value
                else Some (Ok bin_num)
            end
          else Some (Ok bin_num)
      end
  end.

(** The loop over the values: the bookmark carries over. *)
Fixpoint bin_loop (depth : nat) (kind : array_kind) (bin_edges : list F)
  (bin_bookmark : nat) (values : list F) : option (result (list nat)) :=
  match values with
  | [] => Some (Ok [])
  | val :: values' =>
      match get_bin_number depth kind bin_edges bin_bookmark val with
      | None => None
      | Some (Raise e) => Some (Raise e)
      | Some (Ok bin_bookmark) =>
          match bin_loop depth kind bin_edges bin_bookmark values' with
          | Some (Ok bin_numbers) => Some (Ok (bin_bookmark :: bin_numbers))
          | other => other
          end
      end
  end.

(** The bookmarks of [get_bin_numbers(sorted_values, bin_edges)]: the
    Python integers that [bin_bookmark] goes through, one per value,
    before each is written into [bin_numbers].  The array that the call
    returns is [get_bin_numbers_array] below. *)
Definition get_bin_numbers (depth : nat) (kind : array_kind)
  (sorted_values bin_edges : list F) : option (result (list nat)) :=
  bin_loop depth kind bin_edges 0 sorted_values.

(** [np.zeros_like(a)]: an array of the shape and element type of [a]. *)
Definition np_zeros_like (a : list F) : list F := map (fun _ => fzero) a.

(** [a[i] = v] on a NumPy array of the values' element type, [i >= 0]. *)
Fixpoint store_at (a : list F) (i : nat) (v : F) : result (list F) :=
  match a, i with
  | [], _ => Raise IndexError
  | _ :: a', O => Ok (v :: a')
  | x :: a', S i' => a'' <- store_at a' i' v ;; Ok (x :: a'')
  end.

(** The loop of [get_bin_numbers] with its array.  [bin_numbers] has
    the element type of the values, so [bin_numbers[i] = bin_bookmark]
    converts the Python integer to that type: [cast] is that conversion
    (exact while the integer is representable; a float type rounds it,
    a [w]-bit integer type keeps its low [w] bits). *)
Fixpoint bin_numbers_loop (cast : nat -> F) (depth : nat) (kind : array_kind)
  (bin_edges : list F) (bin_bookmark i : nat) (values bin_numbers : list F)
  : option (result (list F)) :=
  match values with
  | [] => Some (Ok bin_numbers)
  | val :: values' =>
      match get_bin_number depth kind bin_edges bin_bookmark val with
      | None => None
      | Some (Raise e) => Some (Raise e)
      | Some (Ok bin_bookmark) =>
          match store_at bin_numbers i (cast bin_bookmark) with
          | Raise e => Some (Raise e)
          | Ok bin_numbers =>
              bin_numbers_loop cast depth kind bin_edges bin_bookmark (S i)
                values' bin_numbers
          end
      end
  end.

(** [get_bin_numbers(sorted_values, bin_edges)] with the array it
    returns. *)
Definition get_bin_numbers_array (cast : nat -> F) (depth : nat)
  (kind : array_kind) (sorted_values bin_edges : list F)
  : option (result (list F)) :=
  let bin_numbers := np_zeros_like sorted_values in
  bin_numbers_loop cast depth kind bin_edges 0 0 sorted_values bin_numbers.

(** The first bin whose edge the value does not exceed: the number of
    leading edges below the value. *)
Fixpoint first_bin (bin_edges : list F) (value : F) : nat :=
  match bin_edges with
  | [] => 0
  | e :: es => if fltb e value then S (first_bin es value) else 0
  end.

(** Values in non-decreasing order: no later value is below an earlier
    one. *)
Definition ascending (values : list F) : Prop :=
  StronglySorted (fun x y => fltb y x = false) values.

End Bins.

(** ** Resampling ([episode_idxes_sampled_from_pdf]) *)

(** The exceptions of the resampling helper: the built-in ones above and
    the failed [assert]. *)
Inductive sampling_result (A : Type) : Type :=
| Sampled (a : A)
| AssertionError
| Raised (e : error).

Arguments Sampled {A} a.
Arguments AssertionError {A}.
Arguments Raised {A} e.

Section Sampling.

(** The entries of [pdf] with [np.round(x).astype(int)] on them, and the
    positions that [np.random.choice] draws: [draw s n size] is what the
    generator in state [s] picks, [size] times, among [n] candidates,
    with the state it is left in.  Both belong to NumPy. *)
Variable P : Type.
Variable np_round_int : P -> Z.
Variable draw : N -> nat -> nat -> list nat * N.

(** [np.cumsum]. *)
Fixpoint np_cumsum_from (acc : nat) (a : list nat) : list nat :=
  match a with
  | [] => []
  | x :: a' => (acc + x) :: np_cumsum_from (acc + x) a'
  end.

Definition np_cumsum (a : list nat) : list nat := np_cumsum_from 0 a.

(** [np.arange(lo, hi)] on integers. *)
Definition np_arange (lo hi : nat) : list nat := seq lo (hi - lo).

Fixpoint insert_nat (x : nat) (l : list nat) : list nat :=
  match l with
  | [] => [x]
  | y :: l' => if Nat.leb x y then x :: l else y :: insert_nat x l'
  end.

(** [np.sort] on integers. *)
Definition np_sort (a : list nat) : list nat := fold_right insert_nat [] a.

(** [np.random.choice(a, size, replace=True)]: refuses an empty [a]
    unless nothing is to be drawn. *)
Definition np_random_choice (s : N) (a : list nat) (size : nat)
  : result (list nat) * N :=
  if Nat.eqb (length a) 0 && negb (Nat.eqb size 0)
  then (Raise ValueError, s)
  else
    let '(positions, s') := draw s (length a) size in
    (Ok (map (fun p => nth p a 0) positions), s').

(** One round of the loop, for bar [i] asked for [n_sample] indices. *)
Definition sample_bar (s : N) (sample_range_edges bar_heights : list nat)
  (i : nat) (n_sample : Z) (target_sample_idxes : list nat)
  : result (list nat) * N :=
  let sample_base :=
    np_arange (nth i sample_range_edges 0) (nth (S i) sample_range_edges 0) in
  if (n_sample <=? 0)%Z then (Ok target_sample_idxes, s)
  else
    let height := nth i bar_heights 0 in
    if (Z.of_nat height <=? n_sample)%Z then
      match np_random_choice s sample_base
              (Z.to_nat (n_sample - Z.of_nat height)) with
      | (Ok sample_rest, s') =>
          (Ok (target_sample_idxes ++ np_sort (sample_base ++ sample_rest)), s')
      | (Raise e, s') => (Raise e, s')
      end
    else
      match np_random_choice s sample_base (Z.to_nat n_sample) with
      | (Ok sample, s') => (Ok (target_sample_idxes ++ np_sort sample), s')
      | (Raise e, s') => (Raise e, s')
      end.

(** The loop over [enumerate(num_to_sample)], from bar [i] on. *)
Fixpoint sample_bars (s : N) (sample_range_edges bar_heights : list nat)
  (i : nat) (num_to_sample : list Z) (target_sample_idxes : list nat)
  : result (list nat) * N :=
  match num_to_sample with
  | [] => (Ok target_sample_idxes, s)
  | n_sample :: rest =>
      match sample_bar s sample_range_edges bar_heights i n_sample
              target_sample_idxes with
      | (Ok target_sample_idxes, s') =>
          sample_bars s' sample_range_edges bar_heights (S i) rest
            target_sample_idxes
      | (Raise e, s') => (Raise e, s')
      end
  end.

(** [episode_idxes_sampled_from_pdf(pdf, bar_heights)] from generator
    state [s]; the heights are counts. *)
Definition episode_idxes_sampled_from_pdf (pdf : list P)
  (bar_heights : list nat) (s : N) : sampling_result (list nat) * N :=
  let num_to_sample := map np_round_int pdf in
  let sample_range_edges := 0 :: np_cumsum bar_heights in
  if negb (Nat.eqb (length num_to_sample) (length bar_heights))
  then (AssertionError, s)
  else
    match sample_bars s sample_range_edges bar_heights 0 num_to_sample [] with
    | (Ok target_sample_idxes, s') => (Sampled target_sample_idxes, s')
    | (Raise e, s') => (Raised e, s')
    end.

(** What NumPy promises of a draw: as many positions as asked for, each
    among the candidates. *)
Definition draws_in_range : Prop :=
  forall s n size,
    length (fst (draw s n size)) = size
    /\ (0 < n -> Forall (fun p => p < n) (fst (draw s n size))).

(** The number of indices a bar contributes. *)
Definition asked (n_sample : Z) : nat := Z.to_nat (Z.max 0 n_sample).

End Sampling.

(** What bar number [i] contributes when it holds the [h] indices from
    [lo] on and is asked for [n]: [asked n] of its own indices, in
    order, and all of them at least once when [n] reaches [h]. *)
Definition bar_block (lo h : nat) (n : Z) (block : list nat) : Prop :=
  length block = asked n
  /\ StronglySorted le block
  /\ Forall (fun x => lo <= x < lo + h) block
  /\ ((0 < n)%Z -> (Z.of_nat h <= n)%Z -> incl (seq lo h) block).

(** One block per bar, the bars lying side by side from [lo] on. *)
Inductive bar_blocks : nat -> list nat -> list Z -> list (list nat) -> Prop :=
| bar_blocks_nil (lo : nat) : bar_blocks lo [] [] []
| bar_blocks_cons (lo h : nat) (hs : list nat) (n : Z) (ns : list Z)
    (block : list nat) (blocks : list (list nat)) :
    bar_block lo h n block ->
    bar_blocks (lo + h) hs ns blocks ->
    bar_blocks lo (h :: hs) (n :: ns) (block :: blocks).

(** Every bar that is asked for something holds something. *)
Definition bars_can_serve (num_to_sample : list Z) (bar_heights : list nat)
  : Prop :=
  Forall2 (fun n h => (0 < n)%Z -> 0 < h) num_to_sample bar_heights.

(** A generator for the examples: it walks through the candidates in
    turn, starting at its state. *)
Definition round_robin (s : N) (n size : nat) : list nat * N :=
  (map (fun k => (N.to_nat s + k) mod n) (seq 0 size),
   (s + N.of_nat size)%N).

(** ** Binned data ([bin_processed_data]) *)





Section BinnedData.

Context {F : Type} `{Scalar F}.

(** [jnp.linspace(start, stop, num, endpoint=True)] belongs to JAX. *)
Variable jnp_linspace : F -> F -> nat -> list F.








End BinnedData.


(** The conversion of a Python integer to [uint8] on assignment into an
    array: the low eight bits. *)
Definition astype_uint8 (n : nat) : Z := (Z.of_nat n mod 256)%Z.

(** ** Worked examples *)

Example sum_rewards_single_episode :
  sum_rewards [0; 0; 1]%Z [1; 2; 3]%Z = Ok [6%Z].
Proof. reflexivity. Qed.

Example sum_rewards_two_episodes :
  sum_rewards [0; 1; 0; 1]%Z [1; 1; 5; 2]%Z = Ok [2; 7]%Z.
Proof. reflexivity. Qed.


Example completed_episodes_two_episodes :
  completed_episodes [] [0; 1; 0; 1; 0]%Z [1; 1; 5; 2; 4]%Z
  = [[1; 1]; [5; 2]]%Z.
Proof. reflexivity. Qed.

Example compute_returns_two_episodes :
  compute_returns [0; 1; 0; 1; 0]%Z [1; 1; 5; 2; 4]%Z = [2; 7]%Z.
Proof. reflexivity. Qed.

Example calculate_returns_two_agents :
  calculate_returns
    {| rewards := [[[1; 9]; [1; 9]; [5; 9]; [2; 9]]]%Z;
       terminals := [[[0; 0]; [1; 1]; [1; 0]; [1; 1]]]%Z;
       actions := [[[Sc 0; Sc 1]; [Sc 0; Sc 1]; [Sc 1; Sc 1]; [Sc 0; Sc 0]]]%Z;
       infos_state := [[[0]; [1]; [2]; [3]]]%Z |}
  = Ok [2; 7]%Z.
Proof. reflexivity. Qed.

Example np_unique_axis1_sorted :
  np_unique_axis1 [[[3; 0]; [0; 0]; [1; 0]; [0; 0]; [3; 0]]]%Z
  = [[[0; 0]; [1; 0]; [3; 0]]]%Z.
Proof. reflexivity. Qed.

(** An action array without a timestep stops at the reshape, before
    [np.concatenate] compares the lengths. *)
Example saco_of_empty_action_axis :
  saco_of (state_action_batch [[0]; [1]]%Z []) = Raise TypeError.
Proof. reflexivity. Qed.

(** ** Facts about the scan *)

Section ReturnFacts.

Context {F : Type} `{Scalar F}.

Lemma lax_scan_length {C X Y : Type} (f : C -> X -> C * Y) (xs : list X) :
  forall init, length (snd (lax_scan f init xs)) = length xs.
Proof.
  induction xs as [|x xs IH]; intros init; simpl.
  - reflexivity.
  - destruct (f init x) as [c y].
    specialize (IH c). destruct (lax_scan f c xs) as [c' ys].
    simpl in *. now rewrite IH.
Qed.

Lemma removelast_cons_length {A : Type} (x : A) (l : list A) :
  length (removelast (x :: l)) = length l.
Proof.
  revert x. induction l as [|y l IH]; intros x.
  - reflexivity.
  - change (removelast (x :: y :: l)) with (x :: removelast (y :: l)).
    cbn [length]. now rewrite IH.
Qed.

Lemma scan_mask_returns_from (ts rs : list F) :
  forall carry prev,
    boolean_mask (map (fun t => feqb t fone) ts)
      (snd (lax_scan scan_fn carry (combine (removelast (prev :: ts)) rs)))
    = returns_from carry prev ts rs.
Proof.
  revert rs. induction ts as [|t ts IH]; intros rs carry prev.
  - reflexivity.
  - change (removelast (prev :: t :: ts)) with (prev :: removelast (t :: ts)).
    destruct rs as [|r rs]; [reflexivity|].
    specialize (IH rs (if truthy prev then r else fadd carry r) t).
    remember (removelast (t :: ts)) as shifted eqn:Hshifted.
    cbn [combine lax_scan scan_fn returns_from map boolean_mask].
    destruct (lax_scan scan_fn (if truthy prev then r else fadd carry r)
                (combine shifted rs)) as [c' ys].
    cbn [snd boolean_mask] in *. rewrite IH. reflexivity.
Qed.

(** On inputs of equal, non-zero length [sum_rewards] returns, and what
    it returns is the fused pass started from the zero carry and the
    zero sentinel. *)
Lemma sum_rewards_returns_from (terminals rewards : list F) :
  length terminals = length rewards ->
  1 <= length terminals ->
  sum_rewards terminals rewards
  = Ok (returns_from fzero fzero terminals rewards).
Proof.
  intros Hlen Hpos. unfold sum_rewards.
  destruct terminals as [|t0 ts]; [simpl in Hpos; lia|].
  cbn [getitem0 rbind]. unfold scan_leaves, drop_last, jnp_pad_1_0, zeros_like.
  rewrite removelast_cons_length, Hlen, Nat.eqb_refl. cbn [rbind].
  pose proof (scan_mask_returns_from (t0 :: ts) rewards fzero fzero) as Hscan.
  pose proof (lax_scan_length scan_fn
                (combine (removelast (fzero :: t0 :: ts)) rewards) fzero) as Hl.
  destruct (lax_scan scan_fn fzero
              (combine (removelast (fzero :: t0 :: ts)) rewards)) as [c ys].
  cbn [snd] in *. unfold getitem_mask.
  rewrite length_map, Hl, length_combine, removelast_cons_length, Hlen.
  rewrite Nat.min_id, Nat.eqb_refl, Hscan. reflexivity.
Qed.

Lemma sum_rewards_empty (rewards : list F) :
  sum_rewards [] rewards = Raise IndexError.
Proof. reflexivity. Qed.

Lemma sum_rewards_mismatch (terminals rewards : list F) :
  1 <= length terminals ->
  length terminals <> length rewards ->
  sum_rewards terminals rewards = Raise ValueError.
Proof.
  intros Hpos Hneq. unfold sum_rewards.
  destruct terminals as [|t0 ts]; [simpl in Hpos; lia|].
  cbn [getitem0 rbind]. unfold scan_leaves, drop_last, jnp_pad_1_0.
  rewrite removelast_cons_length.
  destruct (Nat.eqb_spec (length (t0 :: ts)) (length rewards)); [contradiction|].
  reflexivity.
Qed.

End ReturnFacts.

(** ** The fused pass against the worded algorithm and against episodes *)

Section ReturnRefinement.

Context {F : Type} `{FlagLaws F}.

Lemma truthy_flag_set (t : F) :
  t = fzero \/ t = fone -> truthy t = flag_set t.
Proof.
  unfold truthy, flag_set. intros [-> | ->].
  - now rewrite feqb_zero_zero, feqb_zero_one.
  - now rewrite feqb_one_zero, feqb_one_one.
Qed.

Lemma shifted_terminals_removelast (terminals : list F) :
  1 <= length terminals ->
  shifted_terminals terminals = removelast (fzero :: terminals).
Proof.
  intros Hpos. unfold shifted_terminals.
  destruct terminals as [|t ts]; [simpl in Hpos; lia|].
  change (removelast (fzero :: t :: ts)) with (fzero :: removelast (t :: ts)).
  f_equal. rewrite removelast_firstn_len. f_equal. lia.
Qed.

Lemma select_reset_returns_from (ts rs : list F) :
  forall carry prev,
    prev = fzero \/ prev = fone ->
    binary_flags ts ->
    select_terminal ts (reset_scan carry (removelast (prev :: ts)) rs)
    = returns_from carry prev ts rs.
Proof.
  revert rs. induction ts as [|t ts IH]; intros rs carry prev Hprev Hts.
  - reflexivity.
  - change (removelast (prev :: t :: ts)) with (prev :: removelast (t :: ts)).
    destruct rs as [|r rs]; [reflexivity|].
    inversion Hts as [|? ? Ht Hts']; subst.
    remember (removelast (t :: ts)) as shifted eqn:Hshifted.
    cbn [reset_scan select_terminal returns_from].
    rewrite (truthy_flag_set _ Hprev). subst shifted.
    rewrite (IH rs _ t Ht Hts'). reflexivity.
Qed.

Lemma episode_total_snoc (first : bool) (cur : list F) (r : F) :
  (first = false -> cur <> []) ->
  episode_total first (cur ++ [r]) = fadd (episode_total first cur) r.
Proof.
  intros Hne. unfold episode_total. destruct first.
  - now rewrite fold_left_app.
  - destruct cur as [|x cur]; [now elim Hne|].
    cbn [app]. now rewrite fold_left_app.
Qed.

Lemma returns_from_episodes (ts rs : list F) :
  forall carry prev cur first,
    binary_flags ts ->
    carry_tracks carry prev cur first ->
    returns_from carry prev ts rs
    = episode_totals first (completed_episodes cur ts rs).
Proof.
  revert rs. induction ts as [|t ts IH]; intros rs carry prev cur first Hts Hinv.
  - reflexivity.
  - destruct rs as [|r rs]; [reflexivity|].
    inversion Hts as [|? ? Ht Hts']; subst.
    cbn [returns_from completed_episodes]. fold (flag_set t).
    set (c := if truthy prev then r else fadd carry r).
    assert (Hc : c = episode_total first (cur ++ [r])
                 /\ (truthy prev = true -> first = false)).
    { subst c. destruct Hinv as [(Hp & -> & ->) | (Hp & -> & Hne)]; rewrite Hp.
      - split; [reflexivity | trivial].
      - split; [symmetry; now apply episode_total_snoc | discriminate]. }
    destruct Hc as [Hc _].
    destruct (flag_set t) eqn:Hflag.
    + cbn [episode_totals]. rewrite <- Hc. f_equal.
      apply IH; [assumption|]. left.
      rewrite (truthy_flag_set _ Ht). auto.
    + apply IH; [assumption|]. right.
      rewrite (truthy_flag_set _ Ht). repeat split; try assumption.
      intros _ Habs. now destruct cur.
Qed.

Lemma returns_from_length (ts rs : list F) :
  forall carry prev,
    length ts = length rs ->
    length (returns_from carry prev ts rs) = count_terminals ts.
Proof.
  revert rs. induction ts as [|t ts IH]; intros rs carry prev Hlen.
  - reflexivity.
  - destruct rs as [|r rs]; [discriminate|]. injection Hlen as Hlen.
    unfold count_terminals in *. cbn [returns_from filter]. unfold flag_set at 1.
    destruct (feqb t fone); cbn [length]; now rewrite IH.
Qed.

Lemma returns_from_no_terminal (ts rs : list F) :
  forall carry prev,
    Forall (fun t => t = fzero) ts ->
    returns_from carry prev ts rs = [].
Proof.
  revert rs. induction ts as [|t ts IH]; intros rs carry prev Hts.
  - reflexivity.
  - destruct rs as [|r rs]; [reflexivity|].
    inversion Hts as [|? ? Ht Hts']; subst.
    cbn [returns_from]. rewrite feqb_zero_one. now apply IH.
Qed.

Lemma returns_from_app (ts rs tail rtail : list F) :
  forall carry prev,
    length ts = length rs ->
    Forall (fun t => t = fzero) tail ->
    returns_from carry prev (ts ++ tail) (rs ++ rtail)
    = returns_from carry prev ts rs.
Proof.
  revert rs. induction ts as [|t ts IH]; intros rs carry prev Hlen Htail.
  - destruct rs; [|discriminate]. cbn [app].
    now rewrite returns_from_no_terminal.
  - destruct rs as [|r rs]; [discriminate|]. injection Hlen as Hlen.
    cbn [app returns_from]. now rewrite IH.
Qed.

Lemma binary_flags_of_bool (l : list bool) :
  binary_flags (map of_bool l).
Proof.
  unfold binary_flags. apply Forall_forall. intros t Hin.
  apply in_map_iff in Hin. destruct Hin as ([|] & <- & _); [now right | now left].
Qed.

Lemma compute_returns_returns_from (terminals rewards : list F) :
  1 <= length terminals ->
  binary_flags terminals ->
  compute_returns terminals rewards
  = returns_from fzero fzero terminals rewards.
Proof.
  intros Hpos Hbin. unfold compute_returns.
  rewrite shifted_terminals_removelast by assumption.
  apply select_reset_returns_from; [now left | assumption].
Qed.

(** The code against the worded algorithm. *)
Lemma sum_rewards_compute_returns (terminals rewards : list F) :
  length terminals = length rewards ->
  1 <= length terminals ->
  binary_flags terminals ->
  sum_rewards terminals rewards = Ok (compute_returns terminals rewards).
Proof.
  intros Hlen Hpos Hbin. rewrite compute_returns_returns_from by assumption.
  now apply sum_rewards_returns_from.
Qed.

(** The worded algorithm against the episodes of the batch. *)
Lemma compute_returns_episodes (terminals rewards : list F) :
  1 <= length terminals ->
  binary_flags terminals ->
  compute_returns terminals rewards
  = episode_totals true (completed_episodes [] terminals rewards).
Proof.
  intros Hpos Hbin. rewrite compute_returns_returns_from by assumption.
  apply returns_from_episodes; [assumption|].
  right. unfold truthy. rewrite feqb_zero_zero. repeat split. discriminate.
Qed.

End ReturnRefinement.

(** ** Facts about the array layer *)

Section ArrayFacts.

Context {F : Type} `{Scalar F}.

Lemma map_result_getitem0_error {A : Type} (rows : list (list A)) :
  is_ok (map_result getitem0 rows) = true
  \/ map_result getitem0 rows = Raise IndexError.
Proof.
  induction rows as [|row rows IH]; cbn [map_result].
  - now left.
  - destruct row as [|x row]; cbn [getitem0 rbind]; [now right|].
    destruct IH as [IH | ->]; [|now right].
    destruct (map_result getitem0 rows); [now left | discriminate].
Qed.

Lemma slice_one_agent_error {A : Type} (x : list (list (list A))) :
  is_ok (slice_one_agent x) = true \/ slice_one_agent x = Raise IndexError.
Proof.
  unfold slice_one_agent. destruct x as [|b0 x]; cbn [getitem0 rbind].
  - now right.
  - apply map_result_getitem0_error.
Qed.

(** Slicing can only fail with [IndexError]. *)
Lemma tree_map_slice_error (experience : Experience F) :
  is_ok (tree_map_slice experience) = true
  \/ tree_map_slice experience = Raise IndexError.
Proof.
  unfold tree_map_slice.
  destruct (slice_one_agent_error (actions experience)) as [Ha | ->];
    [|now right].
  destruct (slice_one_agent (actions experience)); [|discriminate].
  destruct (slice_one_agent_error (infos_state experience)) as [Hs | ->];
    [|now right].
  destruct (slice_one_agent (infos_state experience)); [|discriminate].
  destruct (slice_one_agent_error (rewards experience)) as [Hr | ->];
    [|now right].
  destruct (slice_one_agent (rewards experience)); [|discriminate].
  destruct (slice_one_agent_error (terminals experience)) as [Ht | ->];
    [|now right].
  destruct (slice_one_agent (terminals experience)); [|discriminate].
  now left.
Qed.

(** A batch with a single timestep never gets through: the flags are
    squeezed to a 0-d array. *)
Lemma calculate_returns_single_timestep
  (experience : Experience F) (row : list F) (rest : tensor3 F) :
  terminals experience = [row] :: rest ->
  calculate_returns experience = Raise IndexError.
Proof.
  intros Hterm. unfold calculate_returns.
  destruct (tree_map_slice_error experience) as [Hok | ->]; [|reflexivity].
  destruct (tree_map_slice experience); [|discriminate].
  cbn [rbind]. rewrite Hterm. reflexivity.
Qed.

(** With two timesteps or more the squeeze changes nothing, and
    [calculate_returns] is [sum_rewards] on agent 0's rewards and the
    all-agents flags. *)
Lemma calculate_returns_sum_rewards
  (experience : Experience F) (one : ExperienceOneAgent F)
  (flags : list (list F)) (rest : tensor3 F) :
  tree_map_slice experience = Ok one ->
  terminals experience = flags :: rest ->
  2 <= length flags ->
  calculate_returns experience
  = sum_rewards (map of_bool (all_last_axis flags)) (rewards1 one).
Proof.
  intros Hone Hterm Hlen. unfold calculate_returns.
  rewrite Hone, Hterm. cbn [rbind getitem0].
  destruct flags as [|f1 [|f2 flags]]; simpl in Hlen; try lia.
  reflexivity.
Qed.

Lemma zip_strict_ok {A B C : Type} (f : A -> B -> result C)
  (a : list A) (b : list B) :
  (forall x y, is_ok (f x y) = true) ->
  length a = length b ->
  exists cs, zip_strict f a b = Ok cs /\ length cs = length a.
Proof.
  intros Hf. revert b. induction a as [|x a IH]; intros [|y b] Hlen;
    try discriminate.
  - exists []. split; reflexivity.
  - injection Hlen as Hlen. destruct (IH b Hlen) as (cs & Hcs & Hl).
    cbn [zip_strict]. specialize (Hf x y).
    destruct (f x y) as [c|]; [|discriminate].
    cbn [rbind]. rewrite Hcs. cbn [rbind].
    exists (c :: cs). split; [reflexivity | simpl; now rewrite Hl].
Qed.

Lemma zip_strict_mismatch {A B C : Type} (f : A -> B -> result C)
  (a : list A) (b : list B) :
  (forall x y, is_ok (f x y) = true) ->
  length a <> length b ->
  zip_strict f a b = Raise ValueError.
Proof.
  intros Hf. revert b. induction a as [|x a IH]; intros [|y b] Hlen;
    try reflexivity.
  - now elim Hlen.
  - cbn [zip_strict]. specialize (Hf x y).
    destruct (f x y) as [c|]; [|discriminate].
    cbn [rbind]. rewrite IH; [reflexivity|]. simpl in Hlen. lia.
Qed.

(** [np.unique(..., axis=1)] leaves the leading axis as it is. *)
Lemma np_unique_axis1_length (a : tensor3 F) :
  length (np_unique_axis1 a) = length a.
Proof. unfold np_unique_axis1. apply length_map. Qed.

(** With at least one timestep in batch entry 0 the reshape goes
    through and flattens every timestep's block. *)
Lemma reshape_keep2_ok (a : list (list (list (nd F)))) :
  1 <= shape1 a ->
  reshape_keep2 a = Ok (map (map (flat_map ravel)) a).
Proof.
  intros Hpos. unfold reshape_keep2.
  destruct (Nat.eqb_spec (shape1 a) 0) as [Hz|_]; [lia | reflexivity].
Qed.

(** Without a timestep the length standing for [-1] cannot be inferred. *)
Lemma reshape_keep2_empty (a : list (list (list (nd F)))) :
  shape1 a = 0 ->
  reshape_keep2 a = Raise TypeError.
Proof. intros Hz. unfold reshape_keep2. now rewrite Hz. Qed.

(** Whatever the values, a batch with one leading entry and [T]
    matching timesteps gets the ratio [1 / T]. *)
Lemma saco_of_single_batch
  (offline_data : Experience F) (states : list (list F))
  (acts : list (list (nd F))) :
  infos_state offline_data = [states] ->
  actions offline_data = [acts] ->
  length acts = length states ->
  1 <= length states ->
  saco_of offline_data = Ok (1 # Pos.of_nat (length states))%Q.
Proof.
  intros Hs Ha Hlen Hpos. unfold saco_of, np_concatenate_last.
  rewrite Hs, Ha.
  rewrite reshape_keep2_ok by (cbn [shape1]; lia).
  cbn [rbind map zip_strict shape1].
  destruct (zip_strict_ok (fun r s : list F => Ok (r ++ s)) states
              (map (flat_map ravel) acts)) as (rows & Hrows & _).
  { reflexivity. }
  { now rewrite length_map. }
  rewrite Hrows. cbn [rbind]. rewrite np_unique_axis1_length.
  cbn [length]. unfold true_div.
  destruct (length states) as [|n]; [lia | reflexivity].
Qed.

(** Differing numbers of timesteps stop [np.concatenate], once the
    actions have a timestep to reshape. *)
Lemma saco_of_mismatch
  (offline_data : Experience F) (states : list (list F))
  (acts : list (list (nd F))) :
  infos_state offline_data = [states] ->
  actions offline_data = [acts] ->
  1 <= length acts ->
  length acts <> length states ->
  saco_of offline_data = Raise ValueError.
Proof.
  intros Hs Ha Hpos Hlen. unfold saco_of, np_concatenate_last.
  rewrite Hs, Ha.
  rewrite reshape_keep2_ok by (cbn [shape1]; lia).
  cbn [rbind map zip_strict].
  rewrite (zip_strict_mismatch (fun r s : list F => Ok (r ++ s))).
  - reflexivity.
  - reflexivity.
  - rewrite length_map. congruence.
Qed.

End ArrayFacts.

Section WrapperFacts.

Context {F : Type} `{FlagLaws F}.

(** From two timesteps on, [calculate_returns] is the worded algorithm
    on agent 0's rewards and the all-agents flags. *)
Lemma calculate_returns_reset_scan
  (experience : Experience F) (one : ExperienceOneAgent F)
  (flags : list (list F)) (rest : tensor3 F) :
  tree_map_slice experience = Ok one ->
  terminals experience = flags :: rest ->
  2 <= length flags ->
  length flags = length (rewards1 one) ->
  calculate_returns experience
  = Ok (compute_returns (map of_bool (all_last_axis flags)) (rewards1 one)).
Proof.
  intros Hone Hterm Hpos Hlen.
  rewrite (calculate_returns_sum_rewards experience one flags rest)
    by assumption.
  apply sum_rewards_compute_returns.
  - unfold all_last_axis. now rewrite !length_map.
  - unfold all_last_axis. rewrite !length_map. lia.
  - apply binary_flags_of_bool.
Qed.

End WrapperFacts.

(** ** Facts about dictionaries *)

Section DictFacts.

Context {V : Type}.

Lemma mem_key_In (k : string) (l : list string) :
  mem_key k l = true <-> In k l.
Proof.
  unfold mem_key. rewrite existsb_exists. split.
  - intros (y & Hy & Heq). apply String.eqb_eq in Heq. now subst.
  - intros Hin. exists k. split; [assumption | apply String.eqb_refl].
Qed.

Lemma dict_keys_set (k : string) (v : V) (d : dict V) :
  dict_keys (dict_set k v d)
  = if mem_key k (dict_keys d) then dict_keys d else dict_keys d ++ [k].
Proof.
  unfold dict_keys, mem_key. induction d as [|[k' v'] d IH]; cbn.
  - reflexivity.
  - destruct (String.eqb_spec k k') as [-> | Hneq]; cbn.
    + reflexivity.
    + rewrite IH. now destruct (existsb (String.eqb k) (map fst d)).
Qed.

Lemma dict_get_set_same (k : string) (v : V) (d : dict V) :
  dict_get k (dict_set k v d) = Some v.
Proof.
  induction d as [|[k' v'] d IH]; cbn.
  - now rewrite String.eqb_refl.
  - destruct (String.eqb_spec k k') as [-> | Hneq]; cbn.
    + now rewrite String.eqb_refl.
    + destruct (String.eqb_spec k k'); [contradiction | assumption].
Qed.

Lemma dict_get_set_other (k k0 : string) (v : V) (d : dict V) :
  k0 <> k -> dict_get k0 (dict_set k v d) = dict_get k0 d.
Proof.
  intros Hneq. induction d as [|[k' v'] d IH]; cbn.
  - destruct (String.eqb_spec k0 k); [contradiction | reflexivity].
  - destruct (String.eqb_spec k k') as [<- | Hkk']; cbn.
    + destruct (String.eqb_spec k0 k); [contradiction | reflexivity].
    + destruct (String.eqb_spec k0 k'); [reflexivity | assumption].
Qed.

Lemma filter_filter_weaker {A : Type} (p q : A -> bool) (l : list A) :
  (forall y, p y = true -> q y = true) ->
  filter p (filter q l) = filter p l.
Proof.
  intros Hpq. induction l as [|y l IH]; cbn; [reflexivity|].
  destruct (q y) eqn:Hq, (p y) eqn:Hp; cbn; rewrite ?Hp, ?IH; try reflexivity.
  apply Hpq in Hp. congruence.
Qed.

Lemma filter_filter_and {A : Type} (p q : A -> bool) (l : list A) :
  filter p (filter q l) = filter (fun y => q y && p y) l.
Proof.
  induction l as [|y l IH]; cbn; [reflexivity|].
  destruct (q y) eqn:Hq, (p y) eqn:Hp; cbn; rewrite ?Hp, ?IH; reflexivity.
Qed.

Lemma fill_keys (value : string -> V) (keys : list string) :
  forall d,
    dict_keys (fill value keys d)
    = dict_keys d
      ++ filter (fun k => negb (mem_key k (dict_keys d)))
           (first_occurrences keys).
Proof.
  induction keys as [|x keys IH]; intros d; cbn [fill fold_left].
  - cbn. now rewrite app_nil_r.
  - fold (fill value keys (dict_set x (value x) d)). rewrite IH.
    rewrite dict_keys_set. cbn [first_occurrences filter].
    destruct (mem_key x (dict_keys d)) eqn:Hmem; cbn [negb].
    + f_equal. symmetry. apply filter_filter_weaker.
      intros y Hy. destruct (String.eqb_spec x y) as [<- | ]; [|reflexivity].
      rewrite Hmem in Hy. discriminate.
    + rewrite <- app_assoc. cbn [app]. do 2 f_equal.
      rewrite filter_filter_and. apply filter_ext. intros y.
      unfold mem_key. rewrite existsb_app. cbn [existsb].
      rewrite orb_false_r, negb_orb, andb_comm. f_equal.
      now rewrite String.eqb_sym.
Qed.

Lemma fill_get_untouched (value : string -> V) (keys : list string) (k : string) :
  forall d, ~ In k keys -> dict_get k (fill value keys d) = dict_get k d.
Proof.
  induction keys as [|x keys IH]; intros d Hnin; cbn [fill fold_left].
  - reflexivity.
  - fold (fill value keys (dict_set x (value x) d)).
    rewrite IH by (intros Hin; apply Hnin; now right).
    apply dict_get_set_other. intros ->. apply Hnin. now left.
Qed.

Lemma fill_get (value : string -> V) (keys : list string) (k : string) :
  forall d, In k keys -> dict_get k (fill value keys d) = Some (value k).
Proof.
  induction keys as [|x keys IH]; intros d Hin; [contradiction|].
  cbn [fill fold_left]. fold (fill value keys (dict_set x (value x) d)).
  destruct (in_dec string_dec k keys) as [Hk | Hk].
  - now apply IH.
  - destruct Hin as [-> | Hin]; [|contradiction].
    rewrite fill_get_untouched by assumption. apply dict_get_set_same.
Qed.

End DictFacts.

Lemma first_occurrences_In (l : list string) (k : string) :
  In k (first_occurrences l) <-> In k l.
Proof.
  induction l as [|x l IH]; cbn; [tauto|].
  rewrite filter_In, IH. split.
  - intros [-> | [Hin _]]; auto.
  - intros [-> | Hin]; [now left|].
    destruct (String.eqb_spec x k) as [-> | Hneq]; [now left|].
    right. split; [assumption|].
    destruct (String.eqb_spec x k); [contradiction | reflexivity].
Qed.

Lemma first_occurrences_NoDup (l : list string) :
  NoDup (first_occurrences l).
Proof.
  induction l as [|x l IH]; cbn; constructor.
  - rewrite filter_In. intros [_ Hneq]. now rewrite String.eqb_refl in Hneq.
  - now apply NoDup_filter.
Qed.

Lemma first_occurrences_id (l : list string) :
  NoDup l -> first_occurrences l = l.
Proof.
  induction 1 as [|x l Hnin Hnd IH]; cbn; [reflexivity|].
  rewrite IH. f_equal. apply forallb_filter_id. apply forallb_forall.
  intros y Hy. destruct (String.eqb_spec x y) as [-> | ]; [contradiction|].
  reflexivity.
Qed.

(** ** Facts about the entry points *)

Section ProcessFacts.

Context {F : Type} `{Scalar F}.

Lemma get_saco_run (rel_dir vault_name uid : string) (w : world F) :
  get_saco rel_dir vault_name uid w
  = (match vault_files w rel_dir vault_name uid with
     | Some e => saco_of e
     | None => Raise StorageError
     end, w).
Proof.
  unfold get_saco, mbind, Vault_read, lift.
  now destruct (vault_files w rel_dir vault_name uid).
Qed.

(** The loop of [analyse_vault] when every dataset loads and yields
    returns: the dictionary is filled key by key and the process state
    is left alone. *)
Lemma for_each_fill (rel_dir vault_name : string) (w : world F)
  (uids : list string) :
  (forall uid, In uid uids ->
     exists exp rets,
       vault_files w rel_dir vault_name uid = Some exp
       /\ calculate_returns exp = Ok rets) ->
  forall d,
    for_each
      (fun all_uid_returns uid =>
         exp <~ Vault_read rel_dir vault_name uid ;;
         uid_returns <~ lift (calculate_returns exp) ;;
         mret (dict_set uid uid_returns all_uid_returns))
      uids d w
    = (Ok (fill (returns_of w rel_dir vault_name) uids d), w).
Proof.
  induction uids as [|uid uids IH]; intros Hall d.
  - reflexivity.
  - destruct (Hall uid (or_introl eq_refl)) as (exp & rets & Hexp & Hrets).
    cbn [for_each fill fold_left]. unfold mbind at 1.
    unfold mbind at 1, Vault_read, lift, mret. rewrite Hexp.
    unfold mbind at 1. rewrite Hrets.
    replace (returns_of w rel_dir vault_name uid) with rets
      by (unfold returns_of; now rewrite Hexp, Hrets).
    apply IH. intros uid' Hin. apply Hall. now right.
Qed.

Lemma analyse_vault_run (vault_name : string)
  (vault_uids : option (list string)) (rel_dir : string) (visualise : bool)
  (w : world F) :
  (forall uid, In uid (uid_dirs w (vault_path rel_dir vault_name)) ->
     exists exp rets,
       vault_files w rel_dir vault_name uid = Some exp
       /\ calculate_returns exp = Ok rets) ->
  fst (analyse_vault vault_name vault_uids rel_dir visualise w)
  = Ok (fill (returns_of w rel_dir vault_name)
          (uid_dirs w (vault_path rel_dir vault_name)) []).
Proof.
  intros Hall. unfold analyse_vault. unfold mbind at 1.
  unfold get_available_uids. fold (vault_path rel_dir vault_name).
  unfold mbind at 1. rewrite (for_each_fill _ _ _ _ Hall).
  unfold mbind, plt_show, mret. now destruct visualise.
Qed.

End ProcessFacts.

(** ** The claims *)

(** C1.  The claim: [get_saco] returns the number of distinct
    state-action rows divided by [T].  On the two-timestep batch with
    states [[0]], [[1]] and actions [[0]], [[0]] every row is distinct, so
    the worded computation gives 2/2, while [get_saco] returns 1/2: it
    takes [len] of an array whose leading axis is still the batch axis. *)
Theorem get_saco_counts_batch_axis :
  fst (get_saco "vaults" "smac" "Good"
         (single_vault (state_action_batch [[0]; [1]]%Z [0; 0]%Z)))
  = Ok (1 # 2)%Q
  /\ compute_saco [[0]; [1]]%Z [[0]; [0]]%Z = Ok (2 # 2)%Q
  /\ ~ ((1 # 2) == (2 # 2))%Q.
Proof.
  split; [reflexivity|]. split; [reflexivity|].
  unfold Qeq. cbn. discriminate.
Qed.

(** C2.  On flags and rewards of equal length [T >= 1], the flags being
    zeros and ones, [sum_rewards] (the scan inside [calculate_returns])
    returns what the worded algorithm returns: the flags are shifted
    right behind a zero with the last one dropped, the carry adds each
    reward and restarts from the reward alone where the shifted flag is
    set, and the carries at the set original flags are selected in
    order.  Each selected value is the left-to-right total of one
    completed episode. *)
Theorem sum_rewards_reset_scan :
  forall (F : Type) (S : Scalar F) (L : FlagLaws F) (terminals rewards : list F),
    length terminals = length rewards ->
    1 <= length terminals ->
    binary_flags terminals ->
    sum_rewards terminals rewards = Ok (compute_returns terminals rewards)
    /\ compute_returns terminals rewards
       = episode_totals true (completed_episodes [] terminals rewards).
Proof.
  intros F S L terminals rewards Hlen Hpos Hbin. split.
  - now apply sum_rewards_compute_returns.
  - now apply compute_returns_episodes.
Qed.

Lemma sum_rewards_reset_scan_witness :
  sum_rewards [0; 1; 0; 1]%Z [1; 1; 5; 2]%Z
  = Ok (compute_returns [0; 1; 0; 1]%Z [1; 1; 5; 2]%Z)
  /\ compute_returns [0; 1; 0; 1]%Z [1; 1; 5; 2]%Z
     = episode_totals true
         (completed_episodes [] [0; 1; 0; 1]%Z [1; 1; 5; 2]%Z).
Proof.
  apply (sum_rewards_reset_scan Z Z_Scalar Z_FlagLaws).
  - reflexivity.
  - simpl. lia.
  - repeat (constructor; [(now left) || (now right)|]). constructor.
Defined.

(** C3.  The claim: a length mismatch is the only way the two
    computations fail.  Rewards of length 3 with flags of length 2 do
    stop [calculate_returns], and three states with two actions do stop
    [get_saco]; but [calculate_returns] also fails on a batch of equal
    lengths, the one with a single timestep. *)
Theorem calculate_returns_failure_modes :
  calculate_returns (one_agent_batch [1; 2; 3]%Z [0; 1]%Z) = Raise ValueError
  /\ fst (get_saco "vaults" "smac" "Good"
            (single_vault (state_action_batch [[0]; [0]; [1]]%Z [0; 0]%Z)))
     = Raise ValueError
  /\ calculate_returns (one_agent_batch [5]%Z [1]%Z) = Raise IndexError.
Proof. repeat split; reflexivity. Qed.

(** C4.  On flags and rewards of equal length [T >= 1], [sum_rewards]
    returns a sequence with as many entries as there are flags equal
    to one. *)
Theorem sum_rewards_length :
  forall (F : Type) (S : Scalar F) (terminals rewards : list F),
    length terminals = length rewards ->
    1 <= length terminals ->
    exists returns,
      sum_rewards terminals rewards = Ok returns
      /\ length returns = count_terminals terminals.
Proof.
  intros F S terminals rewards Hlen Hpos.
  exists (returns_from fzero fzero terminals rewards). split.
  - now apply sum_rewards_returns_from.
  - now apply returns_from_length.
Qed.

Lemma sum_rewards_length_witness :
  exists returns,
    sum_rewards [0; 1; 0; 1; 0]%Z [1; 1; 5; 2; 4]%Z = Ok returns
    /\ length returns = count_terminals [0; 1; 0; 1; 0]%Z.
Proof.
  apply (sum_rewards_length Z Z_Scalar).
  - reflexivity.
  - simpl. lia.
Defined.

(** C5.  Rewards behind the last set flag never reach the output of
    [sum_rewards]: with only unset flags behind the prefix [ts], the
    result is that of the prefix alone, and the empty sequence when the
    prefix is empty, that is, when no flag is set at all.  In particular
    rewards 1, 2, 3 under flags 0, 0, 0 give the empty sequence. *)
Theorem trailing_rewards_dropped :
  forall (F : Type) (S : Scalar F) (L : FlagLaws F)
         (ts rs tail rtail : list F),
    length ts = length rs ->
    length tail = length rtail ->
    1 <= length (ts ++ tail) ->
    Forall (fun t => t = fzero) tail ->
    sum_rewards (ts ++ tail) (rs ++ rtail)
    = match ts with
      | [] => Ok []
      | _ :: _ => sum_rewards ts rs
      end
    /\ sum_rewards [0; 0; 0]%Z [1; 2; 3]%Z = Ok [].
Proof.
  intros F S L ts rs tail rtail Hlen Htail Hpos Hzero.
  split; [|reflexivity].
  rewrite sum_rewards_returns_from; [| now rewrite !length_app, Hlen, Htail | assumption].
  rewrite returns_from_app by assumption.
  destruct ts as [|t ts]; [reflexivity|].
  rewrite sum_rewards_returns_from; [reflexivity | assumption | simpl; lia].
Qed.

Lemma trailing_rewards_dropped_witness :
  sum_rewards ([0; 1] ++ [0; 0])%Z ([4; 5] ++ [6; 7])%Z
  = sum_rewards [0; 1]%Z [4; 5]%Z
  /\ sum_rewards [0; 0; 0]%Z [1; 2; 3]%Z = Ok [].
Proof.
  apply (trailing_rewards_dropped Z Z_Scalar Z_FlagLaws
           [0; 1]%Z [4; 5]%Z [0; 0]%Z [6; 7]%Z).
  - reflexivity.
  - reflexivity.
  - simpl. lia.
  - repeat constructor.
Defined.

(** C6.  The claim: states [[0]], [[0]], [[1]] with actions [[0]], [[0]],
    [[0]] give 2/3.  The worded computation does; [get_saco] returns
    1/3. *)
Theorem get_saco_duplication_example :
  fst (get_saco "vaults" "smac" "Good"
         (single_vault (state_action_batch [[0]; [0]; [1]]%Z [0; 0; 0]%Z)))
  = Ok (1 # 3)%Q
  /\ compute_saco [[0]; [0]; [1]]%Z [[0]; [0]; [0]]%Z = Ok (2 # 3)%Q
  /\ ~ ((1 # 3) == (2 # 3))%Q.
Proof.
  split; [reflexivity|]. split; [reflexivity|].
  unfold Qeq. cbn. discriminate.
Qed.

(** C7.  For a stored batch whose state and action arrays have leading
    dimension one and [T >= 1] timesteps, [get_saco] returns [1 / T]
    whatever the states and actions are. *)
Theorem get_saco_batch_dimension_ratio :
  forall (F : Type) (S : Scalar F) (w : world F)
         (rel_dir vault_name uid : string) (offline_data : Experience F)
         (states : list (list F)) (acts : list (list (nd F))),
    vault_files w rel_dir vault_name uid = Some offline_data ->
    infos_state offline_data = [states] ->
    actions offline_data = [acts] ->
    length acts = length states ->
    1 <= length states ->
    fst (get_saco rel_dir vault_name uid w)
    = Ok (1 # Pos.of_nat (shape1 (infos_state offline_data)))%Q.
Proof.
  intros F S w rel_dir vault_name uid offline_data states acts
         Hread Hs Ha Hlen Hpos.
  rewrite get_saco_run, Hread. cbn [fst].
  rewrite (saco_of_single_batch offline_data states acts) by assumption.
  now rewrite Hs.
Qed.

Lemma get_saco_batch_dimension_ratio_witness :
  fst (get_saco "vaults" "smac" "Good"
         (single_vault
            (state_action_batch [[7; 8]; [7; 8]; [9; 9]; [1; 2]]%Z
               [3; 3; 3; 3]%Z)))
  = Ok (1 # 4)%Q.
Proof.
  apply (get_saco_batch_dimension_ratio Z Z_Scalar
           (single_vault
              (state_action_batch [[7; 8]; [7; 8]; [9; 9]; [1; 2]]%Z
                 [3; 3; 3; 3]%Z))
           "vaults" "smac" "Good"
           (state_action_batch [[7; 8]; [7; 8]; [9; 9]; [1; 2]]%Z
              [3; 3; 3; 3]%Z)
           [[7; 8]; [7; 8]; [9; 9]; [1; 2]]%Z
           [[Sc 3]; [Sc 3]; [Sc 3]; [Sc 3]]%Z).
  - reflexivity.
  - reflexivity.
  - reflexivity.
  - reflexivity.
  - simpl. lia.
Defined.

(** C8.  The [vault_uids] argument of [analyse_vault] has no effect:
    whatever is passed, the identifiers come from the directory listing,
    and the outcome (the mapping, or the exception, and the figures
    shown) is the same. *)
Theorem analyse_vault_ignores_vault_uids :
  forall (F : Type) (S : Scalar F) (vault_name rel_dir : string)
         (visualise : bool) (uids1 uids2 : option (list string)) (w : world F),
    analyse_vault vault_name uids1 rel_dir visualise w
    = analyse_vault vault_name uids2 rel_dir visualise w.
Proof. reflexivity. Qed.

(** C10.  When every listed dataset loads and yields returns,
    [analyse_vault] returns a mapping with exactly one entry per listed
    identifier, each identifier mapped to the returns of its dataset,
    the keys in the order in which the listing first gives them; for a
    listing without repetition that is the listing itself. *)
Theorem analyse_vault_mapping :
  forall (F : Type) (S : Scalar F) (w : world F) (vault_name : string)
         (vault_uids : option (list string)) (rel_dir : string)
         (visualise : bool),
    (forall uid, In uid (uid_dirs w (vault_path rel_dir vault_name)) ->
       exists exp rets,
         vault_files w rel_dir vault_name uid = Some exp
         /\ calculate_returns exp = Ok rets) ->
    exists m,
      fst (analyse_vault vault_name vault_uids rel_dir visualise w) = Ok m
      /\ dict_keys m
         = first_occurrences (uid_dirs w (vault_path rel_dir vault_name))
      /\ (NoDup (uid_dirs w (vault_path rel_dir vault_name)) ->
          dict_keys m = uid_dirs w (vault_path rel_dir vault_name))
      /\ NoDup (dict_keys m)
      /\ (forall uid,
             In uid (dict_keys m)
             <-> In uid (uid_dirs w (vault_path rel_dir vault_name)))
      /\ (forall uid exp,
             In uid (uid_dirs w (vault_path rel_dir vault_name)) ->
             vault_files w rel_dir vault_name uid = Some exp ->
             exists rets,
               calculate_returns exp = Ok rets
               /\ dict_get uid m = Some rets).
Proof.
  intros F S w vault_name vault_uids rel_dir visualise Hall.
  set (uids := uid_dirs w (vault_path rel_dir vault_name)) in *.
  exists (fill (returns_of w rel_dir vault_name) uids []).
  assert (Hkeys : dict_keys (fill (returns_of w rel_dir vault_name) uids [])
                  = first_occurrences uids).
  { rewrite fill_keys. cbn [dict_keys map app mem_key existsb negb].
    apply forallb_filter_id. now apply forallb_forall. }
  split; [now apply analyse_vault_run|].
  split; [exact Hkeys|].
  split; [intros Hnd; rewrite Hkeys; now apply first_occurrences_id|].
  split; [rewrite Hkeys; apply first_occurrences_NoDup|].
  split; [intros uid; rewrite Hkeys; apply first_occurrences_In|].
  intros uid exp Hin Hexp.
  destruct (Hall uid Hin) as (exp' & rets & Hexp' & Hrets).
  rewrite Hexp in Hexp'. injection Hexp' as <-.
  exists rets. split; [assumption|].
  rewrite fill_get by assumption.
  unfold returns_of. now rewrite Hexp, Hrets.
Qed.

Lemma analyse_vault_mapping_witness :
  exists m,
    fst (analyse_vault "smac" None "vaults" false two_datasets) = Ok m
    /\ dict_keys m = ["Good"; "Poor"]%string
    /\ dict_get "Poor"%string m = Some [2; 7]%Z.
Proof.
  destruct (analyse_vault_mapping Z Z_Scalar two_datasets "smac" None
              "vaults" false) as (m & Hrun & Hkeys & _ & _ & _ & Hget).
  - intros uid [<- | [<- | []]].
    + exists (one_agent_batch [1; 2; 3]%Z [0; 0; 1]%Z), [6%Z].
      split; reflexivity.
    + exists (one_agent_batch [1; 1; 5; 2]%Z [0; 1; 0; 1]%Z), [2; 7]%Z.
      split; reflexivity.
  - exists m. split; [exact Hrun|]. split; [exact Hkeys|].
    destruct (Hget "Poor"%string
                (one_agent_batch [1; 1; 5; 2]%Z [0; 1; 0; 1]%Z))
      as (rets & Hrets & Hm).
    + right. left. reflexivity.
    + reflexivity.
    + rewrite Hm. f_equal. cbv in Hrets. now injection Hrets as <-.
Defined.

(** ** Further properties of the episode-return scan *)

Section ScanOutcomeFacts.

Context {F : Type} `{Scalar F}.

Lemma sum_rewards_cases (terminals rewards : list F) :
  (terminals = [] /\ sum_rewards terminals rewards = Raise IndexError)
  \/ (1 <= length terminals /\ length terminals <> length rewards
      /\ sum_rewards terminals rewards = Raise ValueError)
  \/ (1 <= length terminals /\ length terminals = length rewards
      /\ sum_rewards terminals rewards
         = Ok (returns_from fzero fzero terminals rewards)).
Proof.
  destruct terminals as [|t ts].
  - left. split; reflexivity.
  - right. assert (Hpos : 1 <= length (t :: ts)) by (simpl; lia).
    destruct (Nat.eq_dec (length (t :: ts)) (length rewards)) as [Heq | Hneq].
    + right. repeat split; try assumption.
      now apply sum_rewards_returns_from.
    + left. repeat split; try assumption.
      now apply sum_rewards_mismatch.
Qed.

(** Two passes glued together: the second starts with the flag that
    ended the first. *)
Lemma returns_from_concat (ts1 rs1 ts2 rs2 : list F) :
  forall carry prev,
    length ts1 = length rs1 ->
    exists carry',
      returns_from carry prev (ts1 ++ ts2) (rs1 ++ rs2)
      = returns_from carry prev ts1 rs1
        ++ returns_from carry' (last ts1 prev) ts2 rs2.
Proof.
  revert rs1. induction ts1 as [|t ts1 IH]; intros rs1 carry prev Hlen.
  - destruct rs1; [|discriminate]. exists carry. reflexivity.
  - destruct rs1 as [|r rs1]; [discriminate|]. injection Hlen as Hlen.
    destruct (IH rs1 (if truthy prev then r else fadd carry r) t Hlen)
      as (carry' & Hcat).
    exists carry'. cbn [app returns_from]. rewrite Hcat.
    replace (last (t :: ts1) prev) with (last ts1 t)
      by (clear; revert t; induction ts1 as [|u ts1 IHl]; intros t;
          [reflexivity | cbn [last]; destruct ts1; [reflexivity | apply IHl]]).
    now destruct (feqb t fone).
Qed.

End ScanOutcomeFacts.

Section ScanAlgebraFacts.

Context {F : Type} `{FlagLaws F}.

Lemma truthy_fzero : truthy fzero = false.
Proof. unfold truthy. now rewrite feqb_zero_zero. Qed.

Lemma truthy_fone : truthy fone = true.
Proof. unfold truthy. now rewrite feqb_one_zero. Qed.

(** Behind a set flag the pass forgets the carry; with [0 + x = x] it
    is the pass of a fresh batch. *)
Lemma returns_from_restart (ts rs : list F) (carry prev : F) :
  (forall x, fadd fzero x = x) ->
  truthy prev = true ->
  returns_from carry prev ts rs = returns_from fzero fzero ts rs.
Proof.
  intros Hid Hprev. destruct ts as [|t ts]; [reflexivity|].
  destruct rs as [|r rs]; [reflexivity|].
  cbn [returns_from]. now rewrite Hprev, truthy_fzero, Hid.
Qed.

Lemma fold_left_fadd_start (l : list F) (a : F) :
  (forall x, fadd x fzero = x) ->
  (forall x y z, fadd (fadd x y) z = fadd x (fadd y z)) ->
  fold_left fadd l a = fadd a (fold_left fadd l fzero).
Proof.
  intros Hr Hassoc. revert a.
  induction l as [|x l IH] using rev_ind; intros a.
  - cbn. now rewrite Hr.
  - rewrite !fold_left_app. cbn. now rewrite IH, Hassoc.
Qed.

Lemma episode_total_fold (first : bool) (episode : list F) :
  (forall x, fadd fzero x = x) ->
  episode <> [] ->
  episode_total first episode = fold_left fadd episode fzero.
Proof.
  intros Hl Hne. unfold episode_total. destruct first; [reflexivity|].
  destruct episode as [|r rs]; [now elim Hne|]. cbn. now rewrite Hl.
Qed.

Lemma completed_episodes_nonempty (ts rs cur : list F) :
  Forall (fun e => e <> []) (completed_episodes cur ts rs).
Proof.
  revert rs cur. induction ts as [|t ts IH]; intros rs cur; [constructor|].
  destruct rs as [|r rs]; [constructor|]. cbn [completed_episodes].
  destruct (flag_set t); [constructor|]; try apply IH.
  now destruct cur.
Qed.

Lemma completed_episodes_concat (ts rs cur : list F) :
  length ts = length rs ->
  ts <> [] ->
  flag_set (last ts fzero) = true ->
  concat (completed_episodes cur ts rs) = cur ++ rs.
Proof.
  revert rs cur. induction ts as [|t ts IH]; intros rs cur Hlen Hne Hlast;
    [now elim Hne|].
  destruct rs as [|r rs]; [discriminate|]. injection Hlen as Hlen.
  cbn [completed_episodes]. destruct ts as [|t' ts].
  - destruct rs; [|discriminate]. cbn [last] in Hlast. rewrite Hlast.
    cbn. now rewrite app_nil_r.
  - assert (Hlast' : flag_set (last (t' :: ts) fzero) = true) by exact Hlast.
    destruct (flag_set t).
    + cbn [concat]. rewrite IH by (assumption || discriminate).
      now rewrite <- app_assoc.
    + rewrite IH by (assumption || discriminate). now rewrite <- app_assoc.
Qed.

Lemma episode_totals_fold (first : bool) (episodes : list (list F)) :
  (forall x, fadd fzero x = x) ->
  (forall x, fadd x fzero = x) ->
  (forall x y z, fadd (fadd x y) z = fadd x (fadd y z)) ->
  Forall (fun e => e <> []) episodes ->
  fold_left fadd (episode_totals first episodes) fzero
  = fold_left fadd (concat episodes) fzero.
Proof.
  intros Hl Hr Hassoc Hne. revert first.
  induction Hne as [|e es He Hes IH]; intros first; [reflexivity|].
  cbn [episode_totals concat fold_left]. rewrite fold_left_app.
  rewrite Hl, (episode_total_fold first e Hl He).
  rewrite (fold_left_fadd_start (episode_totals false es)) by assumption.
  rewrite (fold_left_fadd_start (concat es)) by assumption.
  now rewrite IH.
Qed.

End ScanAlgebraFacts.

Section SliceFacts.

Context {F : Type} `{Scalar F}.

Lemma map_result_getitem0_firstn {A : Type} (b1 b2 : list (list A)) :
  map (firstn 1) b1 = map (firstn 1) b2 ->
  map_result getitem0 b1 = map_result getitem0 b2.
Proof.
  revert b2. induction b1 as [|row1 b1 IH]; intros [|row2 b2] Heq;
    try discriminate; [reflexivity|].
  cbn [map] in Heq. injection Heq as Hrow Hrest.
  cbn [map_result]. rewrite (IH b2 Hrest).
  destruct row1 as [|x1 row1], row2 as [|x2 row2]; try discriminate;
    [reflexivity|].
  cbn in Hrow. now injection Hrow as ->.
Qed.

End SliceFacts.

(** ** Further properties of the driver *)

Section DriverFacts.

Context {F : Type} `{Scalar F}.

Lemma loop_body_run (rel_dir vault_name uid : string) (d : dict (list F))
  (w : world F) :
  (exp <~ Vault_read rel_dir vault_name uid ;;
   uid_returns <~ lift (calculate_returns exp) ;;
   mret (dict_set uid uid_returns d)) w
  = (match dataset_outcome w rel_dir vault_name uid with
     | Ok rets => Ok (dict_set uid rets d)
     | Raise e => Raise e
     end, w).
Proof.
  unfold mbind, Vault_read, lift, mret, dataset_outcome.
  destruct (vault_files w rel_dir vault_name uid) as [exp|]; [|reflexivity].
  now destruct (calculate_returns exp).
Qed.

(** The loop only reads: whatever it returns, the process is as before. *)
Lemma for_each_world (rel_dir vault_name : string) (uids : list string) :
  forall (d : dict (list F)) (w : world F),
    snd (for_each
           (fun all_uid_returns uid =>
              exp <~ Vault_read rel_dir vault_name uid ;;
              uid_returns <~ lift (calculate_returns exp) ;;
              mret (dict_set uid uid_returns all_uid_returns))
           uids d w) = w.
Proof.
  induction uids as [|uid uids IH]; intros d w; [reflexivity|].
  cbn [for_each]. unfold mbind at 1. rewrite loop_body_run.
  destruct (dataset_outcome w rel_dir vault_name uid); [apply IH | reflexivity].
Qed.

(** The loop stops at the first dataset that fails. *)
Lemma for_each_first_failure (rel_dir vault_name : string) (w : world F)
  (pre : list string) (uid : string) (post : list string) (e : error) :
  (forall u, In u pre -> is_ok (dataset_outcome w rel_dir vault_name u) = true) ->
  dataset_outcome w rel_dir vault_name uid = Raise e ->
  forall d,
    for_each
      (fun all_uid_returns uid =>
         exp <~ Vault_read rel_dir vault_name uid ;;
         uid_returns <~ lift (calculate_returns exp) ;;
         mret (dict_set uid uid_returns all_uid_returns))
      (pre ++ uid :: post) d w
    = (Raise e, w).
Proof.
  intros Hpre Hfail. induction pre as [|u pre IH]; intros d.
  - cbn [app for_each]. unfold mbind at 1. rewrite loop_body_run, Hfail.
    reflexivity.
  - cbn [app for_each]. unfold mbind at 1. rewrite loop_body_run.
    specialize (Hpre u (or_introl eq_refl)) as Hu.
    destruct (dataset_outcome w rel_dir vault_name u); [|discriminate].
    apply IH. intros u' Hin. apply Hpre. now right.
Qed.

Lemma analyse_vault_unfold (vault_name : string)
  (vault_uids : option (list string)) (rel_dir : string) (visualise : bool)
  (w : world F) :
  analyse_vault vault_name vault_uids rel_dir visualise w
  = match for_each
            (fun all_uid_returns uid =>
               exp <~ Vault_read rel_dir vault_name uid ;;
               uid_returns <~ lift (calculate_returns exp) ;;
               mret (dict_set uid uid_returns all_uid_returns))
            (uid_dirs w (vault_path rel_dir vault_name)) [] w with
    | (Ok m, w') =>
        (Ok m,
         if visualise
         then with_figure w'
                {| fig_title := violin_title vault_name;
                   fig_data := dict_values m;
                   fig_xticks := dict_keys m |}
         else w')
    | (Raise e, w') => (Raise e, w')
    end.
Proof.
  unfold analyse_vault. unfold mbind at 1. unfold get_available_uids.
  fold (vault_path rel_dir vault_name). unfold mbind at 1.
  match goal with
  | |- context [for_each ?body ?uids ?d w] =>
      destruct (for_each body uids d w) as [[m|e] w']; [|reflexivity]
  end.
  unfold mbind, plt_show, mret, with_figure. now destruct visualise.
Qed.

End DriverFacts.

Section BatchFacts.

Context {F : Type} `{Scalar F}.

Lemma zip_strict_Forall2 {A B C : Type} (f : A -> B -> result C)
  (a : list A) (b : list B) :
  Forall2 (fun x y => is_ok (f x y) = true) a b ->
  exists cs, zip_strict f a b = Ok cs /\ length cs = length a.
Proof.
  induction 1 as [|x y a b Hxy Hab IH].
  - exists []. split; reflexivity.
  - destruct IH as (cs & Hcs & Hl). cbn [zip_strict].
    destruct (f x y) as [c|]; [|discriminate].
    cbn [rbind]. rewrite Hcs. cbn [rbind].
    exists (c :: cs). split; [reflexivity | simpl; now rewrite Hl].
Qed.

Lemma np_concatenate_last_ok (states acts : tensor3 F) :
  Forall2 (fun s a => length s = length a) states acts ->
  exists pairs,
    np_concatenate_last states acts = Ok pairs
    /\ length pairs = length states.
Proof.
  intros Hshape. unfold np_concatenate_last. apply zip_strict_Forall2.
  induction Hshape as [|s a states acts Hsa Hrest IH]; constructor;
    [|assumption].
  destruct (zip_strict_ok (fun r q : list F => Ok (r ++ q)) s a)
    as (rows & -> & _); [reflexivity | assumption | reflexivity].
Qed.

End BatchFacts.

(** ** Further properties, as recorded *)

(** X1.  On one-dimensional flags and rewards of one element type
    (float32, the type [calculate_returns] gives the flags; rewards of
    another type are not covered), [sum_rewards] raises [IndexError]
    exactly when the flag array is empty (whatever the rewards), raises
    [ValueError] exactly when the flag array is not empty and its
    length differs from the rewards', and returns an array exactly when
    the flag array is not empty and the lengths agree. *)
Theorem sum_rewards_outcome :
  forall (F : Type) (S : Scalar F) (terminals rewards : list F),
    (sum_rewards terminals rewards = Raise IndexError <-> terminals = [])
    /\ (sum_rewards terminals rewards = Raise ValueError
        <-> 1 <= length terminals /\ length terminals <> length rewards)
    /\ (is_ok (sum_rewards terminals rewards) = true
        <-> 1 <= length terminals /\ length terminals = length rewards).
Proof.
  intros F S terminals rewards.
  destruct (sum_rewards_cases terminals rewards)
    as [(Hts & Hres) | [(Hpos & Hneq & Hres) | (Hpos & Heq & Hres)]];
    rewrite Hres; cbn [is_ok].
  - subst terminals. cbn [length].
    repeat split; intros; try tauto; try discriminate; lia.
  - repeat split; intros; try tauto; try discriminate; try lia.
    subst terminals. simpl in Hpos. lia.
  - repeat split; intros; try tauto; try discriminate; try lia.
    subst terminals. simpl in Hpos. lia.
Qed.

(** X2.  A batch whose entry 0 has a single timestep never gets
    through [calculate_returns]: whatever the rewards, flags and other
    leaves are, the call raises [IndexError]. *)
Theorem single_timestep_batch_rejected :
  forall (F : Type) (S : Scalar F) (experience : Experience F)
         (row : list F) (rest : tensor3 F),
    terminals experience = [row] :: rest ->
    calculate_returns experience = Raise IndexError.
Proof.
  intros F S experience row rest Hterm.
  now apply (calculate_returns_single_timestep experience row rest).
Qed.

Lemma single_timestep_batch_rejected_witness :
  calculate_returns
    {| rewards := [[[3; 4]]]%Z;
       terminals := [[[1; 1]]]%Z;
       actions := [[[Sc 0; Sc 1]]]%Z;
       infos_state := [[[7]]]%Z |}
  = Raise IndexError.
Proof.
  apply (single_timestep_batch_rejected Z Z_Scalar _ [1; 1]%Z []).
  reflexivity.
Defined.

(** X3.  From two timesteps on, when every leaf can be sliced,
    [calculate_returns] returns the worded reset-scan of agent 0's
    rewards under the flags "all agents terminated", taken from batch
    entry 0; these are the totals of the completed episodes. *)
Theorem calculate_returns_from_two_timesteps :
  forall (F : Type) (S : Scalar F) (L : FlagLaws F)
         (experience : Experience F) (one : ExperienceOneAgent F)
         (flags : list (list F)) (rest : tensor3 F),
    tree_map_slice experience = Ok one ->
    terminals experience = flags :: rest ->
    2 <= length flags ->
    length flags = length (rewards1 one) ->
    calculate_returns experience
    = Ok (compute_returns (map of_bool (all_last_axis flags)) (rewards1 one))
    /\ compute_returns (map of_bool (all_last_axis flags)) (rewards1 one)
       = episode_totals true
           (completed_episodes [] (map of_bool (all_last_axis flags))
              (rewards1 one)).
Proof.
  intros F S L experience one flags rest Hone Hterm Hpos Hlen. split.
  - now apply (calculate_returns_reset_scan experience one flags rest).
  - apply compute_returns_episodes.
    + unfold all_last_axis. rewrite !length_map. lia.
    + apply binary_flags_of_bool.
Qed.

Lemma calculate_returns_from_two_timesteps_witness :
  calculate_returns
    {| rewards := [[[1; 9]; [1; 9]; [5; 9]; [2; 9]]]%Z;
       terminals := [[[0; 0]; [1; 1]; [1; 0]; [1; 1]]]%Z;
       actions := [[[Sc 0; Sc 1]; [Sc 0; Sc 1]; [Sc 1; Sc 1]; [Sc 0; Sc 0]]]%Z;
       infos_state := [[[0]; [1]; [2]; [3]]]%Z |}
  = Ok (compute_returns
          (map of_bool
             (all_last_axis [[0; 0]; [1; 1]; [1; 0]; [1; 1]]%Z))
          [1; 1; 5; 2]%Z)
  /\ compute_returns
       (map of_bool (all_last_axis [[0; 0]; [1; 1]; [1; 0]; [1; 1]]%Z))
       [1; 1; 5; 2]%Z
     = episode_totals true
         (completed_episodes []
            (map of_bool (all_last_axis [[0; 0]; [1; 1]; [1; 0]; [1; 1]]%Z))
            [1; 1; 5; 2]%Z).
Proof.
  apply (calculate_returns_from_two_timesteps Z Z_Scalar Z_FlagLaws
           {| rewards := [[[1; 9]; [1; 9]; [5; 9]; [2; 9]]]%Z;
              terminals := [[[0; 0]; [1; 1]; [1; 0]; [1; 1]]]%Z;
              actions :=
                [[[Sc 0; Sc 1]; [Sc 0; Sc 1]; [Sc 1; Sc 1]; [Sc 0; Sc 0]]]%Z;
              infos_state := [[[0]; [1]; [2]; [3]]]%Z |}
           {| rewards1 := [1; 1; 5; 2]%Z;
              terminals1 := [0; 1; 1; 1]%Z;
              actions1 := [Sc 0; Sc 0; Sc 1; Sc 0]%Z;
              infos_state1 := [0; 1; 2; 3]%Z |}
           [[0; 0]; [1; 1]; [1; 0]; [1; 1]]%Z []).
  - reflexivity.
  - reflexivity.
  - simpl. lia.
  - reflexivity.
Defined.

(** X4.  [calculate_returns] reads the rewards of agent 0 in batch
    entry 0 only: two experiences that agree on every other leaf and on
    the first reward of each timestep of entry 0 have the same outcome,
    whatever the other agents' rewards and the further batch entries
    are. *)
Theorem calculate_returns_reads_agent_zero :
  forall (F : Type) (S : Scalar F) (e1 e2 : Experience F)
         (b1 b2 : list (list F)) (rest1 rest2 : tensor3 F),
    actions e1 = actions e2 ->
    infos_state e1 = infos_state e2 ->
    terminals e1 = terminals e2 ->
    rewards e1 = b1 :: rest1 ->
    rewards e2 = b2 :: rest2 ->
    map (firstn 1) b1 = map (firstn 1) b2 ->
    calculate_returns e1 = calculate_returns e2.
Proof.
  intros F S e1 e2 b1 b2 rest1 rest2 Ha Hs Ht Hr1 Hr2 Hfirst.
  unfold calculate_returns, tree_map_slice.
  rewrite Ha, Hs, Ht, Hr1, Hr2. unfold slice_one_agent at 3 7.
  cbn [getitem0 rbind]. now rewrite (map_result_getitem0_firstn b1 b2 Hfirst).
Qed.

Lemma calculate_returns_reads_agent_zero_witness :
  calculate_returns
    {| rewards := [[[1; 9]; [1; 9]; [5; 9]]]%Z;
       terminals := [[[0; 0]; [1; 1]; [1; 1]]]%Z;
       actions := [[[Sc 0; Sc 1]; [Sc 0; Sc 1]; [Sc 1; Sc 1]]]%Z;
       infos_state := [[[0]; [1]; [2]]]%Z |}
  = calculate_returns
      {| rewards := [[[1; 0]; [1; 7]; [5; 3]]]%Z;
         terminals := [[[0; 0]; [1; 1]; [1; 1]]]%Z;
         actions := [[[Sc 0; Sc 1]; [Sc 0; Sc 1]; [Sc 1; Sc 1]]]%Z;
         infos_state := [[[0]; [1]; [2]]]%Z |}.
Proof.
  apply (calculate_returns_reads_agent_zero Z Z_Scalar _ _
           [[1; 9]; [1; 9]; [5; 9]]%Z [[1; 0]; [1; 7]; [5; 3]]%Z
           [] []); reflexivity.
Defined.

(** X5.  For a stored batch of any leading dimension [B] whose state
    and action arrays share [B] and the number [T >= 1] of timesteps,
    [get_saco] returns [B / T]: the numerator is the batch dimension,
    whatever the values. *)
Theorem get_saco_batch_over_timesteps :
  forall (F : Type) (S : Scalar F) (w : world F)
         (rel_dir vault_name uid : string) (offline_data : Experience F),
    vault_files w rel_dir vault_name uid = Some offline_data ->
    Forall2 (fun s a => length s = length a)
      (infos_state offline_data) (actions offline_data) ->
    1 <= shape1 (infos_state offline_data) ->
    fst (get_saco rel_dir vault_name uid w)
    = Ok (Z.of_nat (length (infos_state offline_data))
          # Pos.of_nat (shape1 (infos_state offline_data)))%Q.
Proof.
  intros F S w rel_dir vault_name uid offline_data Hread Hshape Hpos.
  rewrite get_saco_run, Hread. cbn [fst]. unfold saco_of.
  rewrite reshape_keep2_ok.
  2:{ destruct Hshape as [|s a ss aa Hsa _]; cbn [shape1] in *; lia. }
  cbn [rbind].
  destruct (np_concatenate_last_ok (infos_state offline_data)
              (map (map (flat_map ravel)) (actions offline_data)))
    as (pairs & Hpairs & Hlen).
  { clear -Hshape.
    induction Hshape as [|s a ss aa Hsa Hrest IH]; cbn [map]; constructor;
      [now rewrite length_map | assumption]. }
  rewrite Hpairs. cbn [rbind]. rewrite np_unique_axis1_length, Hlen.
  unfold true_div.
  destruct (shape1 (infos_state offline_data)); [lia | reflexivity].
Qed.

Lemma get_saco_batch_over_timesteps_witness :
  fst (get_saco "vaults" "smac" "Good"
         (single_vault
            {| rewards := [[[0]; [0]; [1]]; [[0]; [0]; [1]]]%Z;
               terminals := [[[0]; [0]; [1]]; [[0]; [0]; [1]]]%Z;
               actions := [[[Sc 1]; [Sc 1]; [Sc 2]]; [[Sc 1]; [Sc 1]; [Sc 2]]]%Z;
               infos_state := [[[5]; [5]; [6]]; [[5]; [5]; [6]]]%Z |}))
  = Ok (2 # 3)%Q.
Proof.
  apply (get_saco_batch_over_timesteps Z Z_Scalar
           (single_vault
              {| rewards := [[[0]; [0]; [1]]; [[0]; [0]; [1]]]%Z;
                 terminals := [[[0]; [0]; [1]]; [[0]; [0]; [1]]]%Z;
                 actions :=
                   [[[Sc 1]; [Sc 1]; [Sc 2]]; [[Sc 1]; [Sc 1]; [Sc 2]]]%Z;
                 infos_state := [[[5]; [5]; [6]]; [[5]; [5]; [6]]]%Z |})
           "vaults" "smac" "Good"
           {| rewards := [[[0]; [0]; [1]]; [[0]; [0]; [1]]]%Z;
              terminals := [[[0]; [0]; [1]]; [[0]; [0]; [1]]]%Z;
              actions :=
                [[[Sc 1]; [Sc 1]; [Sc 2]]; [[Sc 1]; [Sc 1]; [Sc 2]]]%Z;
              infos_state := [[[5]; [5]; [6]]; [[5]; [5]; [6]]]%Z |}).
  - reflexivity.
  - repeat constructor.
  - simpl. lia.
Defined.

(** X6.  When the action array of a stored batch (leading dimension 1)
    has at least one timestep, so that its reshape goes through, and the
    state array has another number of timesteps, [get_saco] raises
    [ValueError] (from [np.concatenate]) and returns no ratio. *)
Theorem get_saco_rejects_mismatch :
  forall (F : Type) (S : Scalar F) (w : world F)
         (rel_dir vault_name uid : string) (offline_data : Experience F)
         (states : list (list F)) (acts : list (list (nd F))),
    vault_files w rel_dir vault_name uid = Some offline_data ->
    infos_state offline_data = [states] ->
    actions offline_data = [acts] ->
    1 <= length acts ->
    length acts <> length states ->
    fst (get_saco rel_dir vault_name uid w) = Raise ValueError.
Proof.
  intros F S w rel_dir vault_name uid offline_data states acts
         Hread Hs Ha Hpos Hneq.
  rewrite get_saco_run, Hread. cbn [fst].
  now apply (saco_of_mismatch offline_data states acts).
Qed.

Lemma get_saco_rejects_mismatch_witness :
  fst (get_saco "vaults" "smac" "Good"
         (single_vault (state_action_batch [[0]; [0]; [1]; [1]]%Z [0; 0; 0]%Z)))
  = Raise ValueError.
Proof.
  apply (get_saco_rejects_mismatch Z Z_Scalar
           (single_vault
              (state_action_batch [[0]; [0]; [1]; [1]]%Z [0; 0; 0]%Z))
           "vaults" "smac" "Good"
           (state_action_batch [[0]; [0]; [1]; [1]]%Z [0; 0; 0]%Z)
           [[0]; [0]; [1]; [1]]%Z [[Sc 0]; [Sc 0]; [Sc 0]]%Z).
  - reflexivity.
  - reflexivity.
  - reflexivity.
  - simpl. lia.
  - simpl. lia.
Defined.

(** X7.  [analyse_vault] stops at the first listed dataset that cannot
    be read or whose returns cannot be computed: it raises that
    dataset's exception, returns no mapping for the datasets before it,
    shows no figure even when asked to, and leaves the process as it
    was. *)
Theorem analyse_vault_first_failure :
  forall (F : Type) (S : Scalar F) (w : world F) (vault_name : string)
         (vault_uids : option (list string)) (rel_dir : string)
         (visualise : bool) (pre : list string) (uid : string)
         (post : list string) (e : error),
    uid_dirs w (vault_path rel_dir vault_name) = pre ++ uid :: post ->
    (forall u, In u pre ->
       is_ok (dataset_outcome w rel_dir vault_name u) = true) ->
    dataset_outcome w rel_dir vault_name uid = Raise e ->
    analyse_vault vault_name vault_uids rel_dir visualise w = (Raise e, w).
Proof.
  intros F S w vault_name vault_uids rel_dir visualise pre uid post e
         Hlist Hpre Hfail.
  rewrite analyse_vault_unfold, Hlist.
  now rewrite (for_each_first_failure rel_dir vault_name w pre uid post e).
Qed.

Lemma analyse_vault_first_failure_witness :
  analyse_vault "smac" None "vaults" true datasets_with_short_one
  = (Raise IndexError, datasets_with_short_one).
Proof.
  apply (analyse_vault_first_failure Z Z_Scalar datasets_with_short_one
           "smac" None "vaults" true ["Good"%string] "Short"%string
           ["Poor"%string] IndexError).
  - reflexivity.
  - intros u [<- | []]. reflexivity.
  - reflexivity.
Defined.

(** X8.  Asking [analyse_vault] to visualise changes nothing in what
    it returns.  Without the request the process is left as it was;
    with it, a returned mapping comes with exactly one new figure, whose
    data are the mapping's values and whose tick labels are its keys, in
    the mapping's order. *)
Theorem analyse_vault_visualise :
  forall (F : Type) (S : Scalar F) (w : world F) (vault_name : string)
         (vault_uids : option (list string)) (rel_dir : string),
    fst (analyse_vault vault_name vault_uids rel_dir true w)
    = fst (analyse_vault vault_name vault_uids rel_dir false w)
    /\ snd (analyse_vault vault_name vault_uids rel_dir false w) = w
    /\ (forall m,
           fst (analyse_vault vault_name vault_uids rel_dir true w) = Ok m ->
           snd (analyse_vault vault_name vault_uids rel_dir true w)
           = with_figure w
               {| fig_title := violin_title vault_name;
                  fig_data := dict_values m;
                  fig_xticks := dict_keys m |}).
Proof.
  intros F S w vault_name vault_uids rel_dir.
  rewrite !analyse_vault_unfold.
  pose proof (for_each_world rel_dir vault_name
                (uid_dirs w (vault_path rel_dir vault_name)) [] w) as Hw.
  match goal with
  | |- context [for_each ?body ?uids ?d w] =>
      destruct (for_each body uids d w) as [[m|e] w']
  end; cbn [fst snd] in *; subst w'.
  - repeat split. intros m' Hm. now injection Hm as <-.
  - repeat split. intros m' Hm. discriminate.
Qed.

(** X9.  In exact arithmetic (addition associative with [0] neutral on
    both sides), when the flags are zeros and ones and the batch ends on
    a set flag, the returns add up to the sum of all rewards: nothing is
    lost and nothing is counted twice. *)
Theorem returns_conserve_rewards :
  forall (F : Type) (S : Scalar F) (L : FlagLaws F)
         (terminals rewards : list F),
    (forall x, fadd fzero x = x) ->
    (forall x, fadd x fzero = x) ->
    (forall x y z, fadd (fadd x y) z = fadd x (fadd y z)) ->
    length terminals = length rewards ->
    binary_flags terminals ->
    last terminals fzero = fone ->
    exists returns,
      sum_rewards terminals rewards = Ok returns
      /\ fold_left fadd returns fzero = fold_left fadd rewards fzero.
Proof.
  intros F S L terminals rewards Hl Hr Hassoc Hlen Hbin Hlast.
  assert (Hne : terminals <> []).
  { intros ->. cbn in Hlast. pose proof feqb_zero_one as Hz.
    rewrite Hlast, feqb_one_one in Hz. discriminate. }
  assert (Hpos : 1 <= length terminals)
    by (destruct terminals; [now elim Hne | simpl; lia]).
  exists (returns_from fzero fzero terminals rewards). split.
  - now apply sum_rewards_returns_from.
  - rewrite (returns_from_episodes terminals rewards fzero fzero [] true Hbin).
    + rewrite episode_totals_fold;
        try assumption; [|apply completed_episodes_nonempty].
      rewrite completed_episodes_concat; try assumption; [reflexivity|].
      unfold flag_set. rewrite Hlast. apply feqb_one_one.
    + right. rewrite truthy_fzero. repeat split. discriminate.
Qed.

Lemma returns_conserve_rewards_witness :
  exists returns,
    sum_rewards [0; 1; 0; 0; 1; 1]%Z [4; -1; 2; 2; 3; 10]%Z = Ok returns
    /\ fold_left Z.add returns 0%Z
       = fold_left Z.add [4; -1; 2; 2; 3; 10]%Z 0%Z.
Proof.
  apply (returns_conserve_rewards Z Z_Scalar Z_FlagLaws
           [0; 1; 0; 0; 1; 1]%Z [4; -1; 2; 2; 3; 10]%Z).
  - intros x. apply Z.add_0_l.
  - intros x. apply Z.add_0_r.
  - intros x y z. symmetry. apply Z.add_assoc.
  - reflexivity.
  - repeat (constructor; [(now left) || (now right)|]). constructor.
  - reflexivity.
Defined.

(** X10.  Batches compose: when the first batch ends on a set flag
    (and [0 + x = x]), the returns of two batches laid end to end are
    the returns of the first followed by the returns of the second. *)
Theorem sum_rewards_concatenation :
  forall (F : Type) (S : Scalar F) (L : FlagLaws F)
         (ts1 rs1 ts2 rs2 : list F),
    (forall x, fadd fzero x = x) ->
    length ts1 = length rs1 ->
    length ts2 = length rs2 ->
    1 <= length ts2 ->
    last ts1 fzero = fone ->
    exists returns1 returns2,
      sum_rewards ts1 rs1 = Ok returns1
      /\ sum_rewards ts2 rs2 = Ok returns2
      /\ sum_rewards (ts1 ++ ts2) (rs1 ++ rs2) = Ok (returns1 ++ returns2).
Proof.
  intros F S L ts1 rs1 ts2 rs2 Hl Hlen1 Hlen2 Hpos2 Hlast.
  assert (Hpos1 : 1 <= length ts1).
  { destruct ts1; [|simpl; lia]. cbn in Hlast. pose proof feqb_zero_one as Hz.
    rewrite Hlast, feqb_one_one in Hz. discriminate. }
  exists (returns_from fzero fzero ts1 rs1), (returns_from fzero fzero ts2 rs2).
  split; [now apply sum_rewards_returns_from|].
  split; [now apply sum_rewards_returns_from|].
  rewrite sum_rewards_returns_from;
    [| now rewrite !length_app, Hlen1, Hlen2 | rewrite length_app; lia].
  destruct (returns_from_concat ts1 rs1 ts2 rs2 fzero fzero Hlen1)
    as (carry' & ->).
  rewrite Hlast, (returns_from_restart ts2 rs2 carry' fone Hl truthy_fone).
  reflexivity.
Qed.

Lemma sum_rewards_concatenation_witness :
  exists returns1 returns2,
    sum_rewards [0; 1]%Z [4; 5]%Z = Ok returns1
    /\ sum_rewards [0; 0; 1; 0]%Z [1; 2; 3; 8]%Z = Ok returns2
    /\ sum_rewards ([0; 1] ++ [0; 0; 1; 0])%Z ([4; 5] ++ [1; 2; 3; 8])%Z
       = Ok (returns1 ++ returns2).
Proof.
  apply (sum_rewards_concatenation Z Z_Scalar Z_FlagLaws
           [0; 1]%Z [4; 5]%Z [0; 0; 1; 0]%Z [1; 2; 3; 8]%Z).
  - intros x. apply Z.add_0_l.
  - reflexivity.
  - reflexivity.
  - simpl. lia.
  - reflexivity.
Defined.

(** ** Sorting and uniqueness along the time axis *)

Section UniqueFacts.

Context {F : Type} `{OrderLaws F}.

Lemma row_eqb_eq (a b : list F) : row_eqb a b = true <-> a = b.
Proof.
  revert b. induction a as [|x a IH]; intros [|y b]; cbn;
    try (split; [discriminate | discriminate]); [tauto|].
  rewrite andb_true_iff, feqb_eq, IH. split.
  - intros [-> ->]. reflexivity.
  - intros Heq. injection Heq as -> ->. tauto.
Qed.

Lemma lex_ltb_irrefl (a : list F) : lex_ltb a a = false.
Proof.
  induction a as [|x a IH]; cbn; [reflexivity|].
  now rewrite fltb_irrefl.
Qed.

Lemma lex_ltb_trans (a b c : list F) :
  lex_ltb a b = true -> lex_ltb b c = true -> lex_ltb a c = true.
Proof.
  revert b c. induction a as [|x a IH]; intros [|y b] [|z c]; cbn;
    try discriminate; try reflexivity.
  destruct (fltb x y) eqn:Hxy.
  - intros _. destruct (fltb y z) eqn:Hyz.
    + intros _. now rewrite (fltb_trans x y z Hxy Hyz).
    + destruct (fltb z y) eqn:Hzy; [discriminate|]. intros _.
      rewrite <- (fltb_connected y z Hyz Hzy). now rewrite Hxy.
  - destruct (fltb y x) eqn:Hyx; [discriminate|].
    pose proof (fltb_connected x y Hxy Hyx) as ->. intros Hab.
    destruct (fltb y z) eqn:Hyz; [reflexivity|].
    destruct (fltb z y) eqn:Hzy; [discriminate|]. intros Hbc.
    now apply (IH b c).
Qed.

Lemma lex_ltb_connected (a b : list F) :
  lex_ltb a b = false -> lex_ltb b a = false -> a = b.
Proof.
  revert b. induction a as [|x a IH]; intros [|y b]; cbn;
    try discriminate; [reflexivity|].
  destruct (fltb x y) eqn:Hxy; [discriminate|].
  destruct (fltb y x) eqn:Hyx; [discriminate|].
  intros Hab Hba. pose proof (fltb_connected x y Hxy Hyx) as ->.
  f_equal. now apply IH.
Qed.

Lemma lex_ltb_asym (a b : list F) :
  lex_ltb a b = true -> lex_ltb b a = false.
Proof.
  intros Hab. destruct (lex_ltb b a) eqn:Hba; [|reflexivity].
  pose proof (lex_ltb_trans a b a Hab Hba) as Haa.
  rewrite lex_ltb_irrefl in Haa. discriminate.
Qed.

Lemma key_le_trans (p q r : list F * nat) :
  key_le p q -> key_le q r -> key_le p r.
Proof.
  unfold key_le. intros Hpq Hqr.
  destruct (lex_ltb (fst r) (fst p)) eqn:Hrp; [|reflexivity].
  destruct (lex_ltb (fst p) (fst q)) eqn:Hlt.
  - pose proof (lex_ltb_trans _ _ _ Hrp Hlt) as Hrq. congruence.
  - pose proof (lex_ltb_connected _ _ Hlt Hpq) as Heq.
    rewrite Heq in Hrp. congruence.
Qed.

Lemma insert_sorted_In (k p : list F * nat) (l : list (list F * nat)) :
  In p (insert_sorted k l) <-> p = k \/ In p l.
Proof.
  induction l as [|h t IH]; cbn.
  - intuition congruence.
  - destruct (lex_ltb (fst h) (fst k)); cbn; rewrite ?IH; intuition congruence.
Qed.

Lemma sort_slices_In (p : list F * nat) (l : list (list F * nat)) :
  In p (sort_slices l) <-> In p l.
Proof.
  unfold sort_slices. induction l as [|h t IH]; cbn; [tauto|].
  rewrite insert_sorted_In, IH. intuition congruence.
Qed.

Lemma insert_sorted_sorted (k : list F * nat) (l : list (list F * nat)) :
  StronglySorted key_le l -> StronglySorted key_le (insert_sorted k l).
Proof.
  induction 1 as [|h t Ht IH Hall]; cbn.
  - constructor; constructor.
  - destruct (lex_ltb (fst h) (fst k)) eqn:Hhk.
    + constructor; [assumption|].
      apply Forall_forall. intros p Hp. apply insert_sorted_In in Hp.
      destruct Hp as [-> | Hp].
      * unfold key_le. now apply lex_ltb_asym.
      * rewrite Forall_forall in Hall. now apply Hall.
    + constructor; [now constructor|].
      constructor; [exact Hhk|].
      apply Forall_forall. intros p Hp. rewrite Forall_forall in Hall.
      apply (key_le_trans k h p); [exact Hhk | now apply Hall].
Qed.

Lemma sort_slices_sorted (l : list (list F * nat)) :
  StronglySorted key_le (sort_slices l).
Proof.
  unfold sort_slices. induction l as [|h t IH]; cbn.
  - constructor.
  - now apply insert_sorted_sorted.
Qed.

Lemma keep_changes_incl (prev : list F) (l : list (list F * nat))
  (p : list F * nat) :
  In p (keep_changes prev l) -> In p l.
Proof.
  revert prev. induction l as [|h t IH]; intros prev; cbn; [tauto|].
  destruct (row_eqb prev (fst h)); cbn; intros Hin.
  - right. now apply (IH (fst h)).
  - destruct Hin as [-> | Hin]; [now left | right; now apply (IH (fst h))].
Qed.

Lemma keep_changes_keys (prev k : list F) (l : list (list F * nat)) :
  k = prev \/ In k (map fst (keep_changes prev l))
  <-> k = prev \/ In k (map fst l).
Proof.
  revert prev. induction l as [|h t IH]; intros prev; cbn; [tauto|].
  destruct (row_eqb prev (fst h)) eqn:Heq; cbn.
  - apply row_eqb_eq in Heq. subst prev.
    specialize (IH (fst h)). intuition congruence.
  - specialize (IH (fst h)). intuition congruence.
Qed.

Lemma keep_changes_sorted (l : list (list F * nat)) :
  StronglySorted key_le l ->
  forall prev,
    Forall (fun p => lex_ltb (fst p) prev = false) l ->
    StronglySorted lex_lt (map fst (keep_changes prev l))
    /\ Forall (lex_lt prev) (map fst (keep_changes prev l)).
Proof.
  induction 1 as [|h t Ht IH Hall]; intros prev Hprev; cbn.
  - split; constructor.
  - inversion Hprev as [|? ? Hh Hrest]; subst.
    destruct (IH (fst h)) as (Hs & Hgt).
    { apply Forall_forall. intros p Hp. rewrite Forall_forall in Hall.
      exact (Hall p Hp). }
    destruct (row_eqb prev (fst h)) eqn:Heq.
    + apply row_eqb_eq in Heq. subst prev. split; assumption.
    + assert (Hlt : lex_lt prev (fst h)).
      { unfold lex_lt. destruct (lex_ltb prev (fst h)) eqn:Hph; [reflexivity|].
        pose proof (lex_ltb_connected _ _ Hph Hh) as Habs.
        apply row_eqb_eq in Habs. congruence. }
      cbn. split.
      * constructor; assumption.
      * constructor; [assumption|].
        eapply Forall_impl; [|exact Hgt].
        intros k Hk. unfold lex_lt in *. now apply (lex_ltb_trans prev (fst h) k).
Qed.

Lemma unique_sorted_spec (l : list (list F * nat)) :
  StronglySorted lex_lt (map fst (unique_sorted (sort_slices l)))
  /\ (forall k, In k (map fst (unique_sorted (sort_slices l)))
                <-> In k (map fst l))
  /\ (forall p, In p (unique_sorted (sort_slices l)) -> In p l).
Proof.
  pose proof (sort_slices_sorted l) as Hsorted.
  assert (Hin : forall p, In p (sort_slices l) <-> In p l)
    by (intros p; apply sort_slices_In).
  assert (Hkeys : forall k, In k (map fst (sort_slices l)) <-> In k (map fst l)).
  { intros k. rewrite !in_map_iff. split; intros (p & Hp & Hpin); exists p;
      (split; [assumption | now apply Hin]). }
  destruct (sort_slices l) as [|h t]; cbn [unique_sorted].
  - repeat split; try constructor; try (intros; now apply Hkeys);
      intros p [].
  - inversion Hsorted as [|? ? Ht Hall]; subst.
    destruct (keep_changes_sorted t Ht (fst h)) as (Hs & Hgt); [exact Hall|].
    split; [|split].
    + cbn. constructor; assumption.
    + intros k. rewrite <- Hkeys. cbn [map In].
      pose proof (keep_changes_keys (fst h) k t) as Hk.
      intuition congruence.
    + intros p [<- | Hp]; apply Hin; [now left|].
      right. now apply (keep_changes_incl (fst h) t).
Qed.

Lemma lex_lt_sorted_NoDup (ks : list (list F)) :
  StronglySorted lex_lt ks -> NoDup ks.
Proof.
  induction 1 as [|k ks Hs IH Hall]; constructor; [|assumption].
  intros Hin. rewrite Forall_forall in Hall. specialize (Hall k Hin).
  unfold lex_lt in Hall. rewrite lex_ltb_irrefl in Hall. discriminate.
Qed.

Lemma existsb_row_eqb_In (r : list F) (seen : list (list F)) :
  existsb (row_eqb r) seen = true <-> In r seen.
Proof.
  rewrite existsb_exists. split.
  - intros (x & Hx & Heq). apply row_eqb_eq in Heq. now subst.
  - intros Hin. exists r. split; [assumption | now apply row_eqb_eq].
Qed.

(** [count_distinct] is the size of any repetition-free list with the
    same members. *)
Lemma count_distinct_NoDup (rows : list (list F)) :
  forall (seen ks : list (list F)),
    NoDup ks ->
    (forall r, In r ks <-> In r rows /\ ~ In r seen) ->
    length ks = count_distinct seen rows.
Proof.
  induction rows as [|r rows IH]; intros seen ks Hnd Hmem; cbn.
  - destruct ks as [|k ks]; [reflexivity|].
    destruct (proj1 (Hmem k) (or_introl eq_refl)) as [[] _].
  - destruct (existsb (row_eqb r) seen) eqn:Hseen.
    + apply existsb_row_eqb_In in Hseen. apply IH; [assumption|].
      intros x. rewrite Hmem. cbn. split.
      * intros [[<- | Hx] Hns]; [contradiction | tauto].
      * tauto.
    + assert (Hns : ~ In r seen).
      { intros Hin. apply existsb_row_eqb_In in Hin. congruence. }
      assert (Hr : In r ks) by (apply Hmem; cbn; tauto).
      apply in_split in Hr. destruct Hr as (k1 & k2 & ->).
      apply NoDup_remove in Hnd. destruct Hnd as [Hnd Hnotin].
      rewrite length_app. cbn [length]. rewrite Nat.add_succ_r, <- length_app.
      f_equal. apply IH; [assumption|].
      intros x. split.
      * intros Hx. assert (Hx' : In x (k1 ++ r :: k2)).
        { apply in_app_or in Hx. apply in_or_app. cbn. tauto. }
        apply Hmem in Hx'. destruct Hx' as [[<- | Hrows] Hxs];
          [contradiction|].
        split; [assumption|]. cbn. intros [<- | Hin]; contradiction.
      * intros [Hrows Hxs]. cbn in Hxs.
        assert (Hx' : In x (k1 ++ r :: k2)) by (apply Hmem; cbn; tauto).
        apply in_app_or in Hx'. apply in_or_app.
        destruct Hx' as [Hx' | [<- | Hx']]; tauto.
Qed.

End UniqueFacts.

Section UniquePositions.

Context {F : Type} `{OrderLaws F}.

Lemma unique_positions_spec (a : tensor3 F) :
  StronglySorted lex_lt (map (slice_axis1 a) (unique_positions a))
  /\ (forall t, In t (unique_positions a) -> t < shape1 a)
  /\ (forall t, t < shape1 a ->
        exists u, In u (unique_positions a)
                  /\ slice_axis1 a u = slice_axis1 a t)
  /\ length (unique_positions a) = count_distinct [] (slices_axis1 a).
Proof.
  unfold unique_positions, slices_axis1.
  set (l0 := map (fun t => (slice_axis1 a t, t)) (seq 0 (shape1 a))).
  destruct (unique_sorted_spec l0) as (Hsorted & Hkeys & Hincl).
  set (U := unique_sorted (sort_slices l0)) in *.
  assert (Hl0 : forall p, In p l0 ->
                          fst p = slice_axis1 a (snd p) /\ snd p < shape1 a).
  { intros p Hp. unfold l0 in Hp. apply in_map_iff in Hp.
    destruct Hp as (t & <- & Ht). apply in_seq in Ht. cbn. split; [reflexivity | lia]. }
  assert (Hfst : map fst U = map (slice_axis1 a) (map snd U)).
  { rewrite map_map. apply map_ext_in. intros p Hp.
    now apply Hl0, Hincl. }
  assert (Hfst0 : map fst l0 = map (slice_axis1 a) (seq 0 (shape1 a))).
  { unfold l0. rewrite map_map. reflexivity. }
  split; [now rewrite <- Hfst|].
  split; [|split].
  - intros t Ht. apply in_map_iff in Ht. destruct Ht as (p & <- & Hp).
    now apply Hl0, Hincl.
  - intros t Ht.
    assert (Hk : In (slice_axis1 a t) (map fst U)).
    { apply Hkeys. rewrite Hfst0. apply in_map. apply in_seq. lia. }
    apply in_map_iff in Hk. destruct Hk as (p & Hp & HpU).
    exists (snd p). split; [now apply in_map|].
    rewrite <- Hp. symmetry. now apply Hl0, Hincl.
  - rewrite <- Hfst0, (length_map snd U), <- (length_map fst U).
    apply count_distinct_NoDup; [now apply lex_lt_sorted_NoDup|].
    intros r. rewrite Hkeys. cbn. tauto.
Qed.

Lemma map_nth_seq_all {A : Type} (d : A) (l : list A) :
  map (fun t => nth t l d) (seq 0 (length l)) = l.
Proof.
  induction l as [|x l IH]; [reflexivity|].
  cbn [length seq map nth]. f_equal.
  rewrite <- seq_shift, map_map. exact IH.
Qed.

Lemma slice_axis1_single (rows : list (list F)) (t : nat) :
  slice_axis1 [rows] t = nth t rows [].
Proof. unfold slice_axis1. cbn. apply app_nil_r. Qed.

Lemma slices_axis1_single (rows : list (list F)) :
  slices_axis1 [rows] = rows.
Proof.
  unfold slices_axis1. cbn [shape1].
  rewrite <- (map_nth_seq_all [] rows) at 3.
  apply map_ext. intros t. apply slice_axis1_single.
Qed.

End UniquePositions.

(** X11.  Along axis 1, [np.unique] keeps one position for every
    distinct slice and no more: the kept slices are in strictly
    increasing lexicographic order (so no two are equal), every kept
    position is a timestep of the array, every timestep's slice is among
    the kept ones, and the number of kept positions is the number of
    distinct slices. *)
Theorem np_unique_axis1_representatives :
  forall (F : Type) (S : Scalar F) (O : OrderLaws F) (a : tensor3 F),
    StronglySorted lex_lt (map (slice_axis1 a) (unique_positions a))
    /\ (forall t, In t (unique_positions a) -> t < shape1 a)
    /\ (forall t, t < shape1 a ->
          exists u, In u (unique_positions a)
                    /\ slice_axis1 a u = slice_axis1 a t)
    /\ length (unique_positions a) = count_distinct [] (slices_axis1 a).
Proof. intros F S O a. apply unique_positions_spec. Qed.

Lemma np_unique_axis1_representatives_witness :
  StronglySorted lex_lt
    (map (slice_axis1 [[[3; 0]; [0; 0]; [3; 0]]; [[1; 1]; [2; 2]; [1; 1]]]%Z)
       (unique_positions
          [[[3; 0]; [0; 0]; [3; 0]]; [[1; 1]; [2; 2]; [1; 1]]]%Z))
  /\ (forall t,
        In t (unique_positions
                [[[3; 0]; [0; 0]; [3; 0]]; [[1; 1]; [2; 2]; [1; 1]]]%Z) ->
        t < shape1 [[[3; 0]; [0; 0]; [3; 0]]; [[1; 1]; [2; 2]; [1; 1]]]%Z)
  /\ (forall t,
        t < shape1 [[[3; 0]; [0; 0]; [3; 0]]; [[1; 1]; [2; 2]; [1; 1]]]%Z ->
        exists u,
          In u (unique_positions
                  [[[3; 0]; [0; 0]; [3; 0]]; [[1; 1]; [2; 2]; [1; 1]]]%Z)
          /\ slice_axis1 [[[3; 0]; [0; 0]; [3; 0]]; [[1; 1]; [2; 2]; [1; 1]]]%Z u
             = slice_axis1
                 [[[3; 0]; [0; 0]; [3; 0]]; [[1; 1]; [2; 2]; [1; 1]]]%Z t)
  /\ length (unique_positions
               [[[3; 0]; [0; 0]; [3; 0]]; [[1; 1]; [2; 2]; [1; 1]]]%Z)
     = count_distinct []
         (slices_axis1 [[[3; 0]; [0; 0]; [3; 0]]; [[1; 1]; [2; 2]; [1; 1]]]%Z).
Proof.
  exact (np_unique_axis1_representatives Z Z_Scalar Z_OrderLaws
           [[[3; 0]; [0; 0]; [3; 0]]; [[1; 1]; [2; 2]; [1; 1]]]%Z).
Defined.

(** X12.  For a batch of leading dimension one, the array that
    [get_saco] calls [unique_vals] holds, along its second axis, exactly
    the distinct state-action rows, sorted and without repetition: its
    second dimension (not its length) is the number of distinct rows. *)
Theorem np_unique_axis1_distinct_rows :
  forall (F : Type) (S : Scalar F) (O : OrderLaws F) (rows : list (list F)),
    exists urows,
      np_unique_axis1 [rows] = [urows]
      /\ StronglySorted lex_lt urows
      /\ (forall r, In r urows <-> In r rows)
      /\ length urows = count_distinct [] rows
      /\ shape1 (np_unique_axis1 [rows]) = count_distinct [] rows.
Proof.
  intros F S O rows.
  destruct (unique_positions_spec [rows]) as (Hsorted & Hbound & Hall & Hcount).
  assert (Hrows : map (fun t => nth t rows []) (unique_positions [rows])
                  = map (slice_axis1 [rows]) (unique_positions [rows])).
  { apply map_ext. intros t. symmetry. apply slice_axis1_single. }
  exists (map (fun t => nth t rows []) (unique_positions [rows])).
  rewrite slices_axis1_single in Hcount. cbn [shape1] in Hbound, Hall.
  split; [reflexivity|]. rewrite Hrows.
  split; [assumption|]. split; [|split].
  - intros r. rewrite in_map_iff. split.
    + intros (t & <- & Ht). rewrite slice_axis1_single.
      apply nth_In. now apply Hbound.
    + intros Hr. destruct (In_nth rows r [] Hr) as (t & Ht & Hnth).
      destruct (Hall t Ht) as (u & Hu & Heq).
      exists u. split; [|assumption].
      now rewrite Heq, slice_axis1_single.
  - now rewrite length_map.
  - unfold np_unique_axis1. cbn [map shape1]. now rewrite length_map.
Qed.

Lemma np_unique_axis1_distinct_rows_witness :
  exists urows,
    np_unique_axis1 [[[3; 0]; [0; 0]; [1; 0]; [0; 0]; [3; 0]]]%Z = [urows]
    /\ StronglySorted lex_lt urows
    /\ (forall r, In r urows
                  <-> In r [[3; 0]; [0; 0]; [1; 0]; [0; 0]; [3; 0]]%Z)
    /\ length urows
       = count_distinct [] [[3; 0]; [0; 0]; [1; 0]; [0; 0]; [3; 0]]%Z
    /\ shape1 (np_unique_axis1 [[[3; 0]; [0; 0]; [1; 0]; [0; 0]; [3; 0]]]%Z)
       = count_distinct [] [[3; 0]; [0; 0]; [1; 0]; [0; 0]; [3; 0]]%Z.
Proof.
  exact (np_unique_axis1_distinct_rows Z Z_Scalar Z_OrderLaws
           [[3; 0]; [0; 0]; [1; 0]; [0; 0]; [3; 0]]%Z).
Defined.

(** ** Facts about the bin numbers *)

Section BinLookupFacts.

Context {F : Type} `{Scalar F}.

Lemma edge_at_in_range (kind : array_kind) (edges : list F) (i : nat) (d : F) :
  i < length edges -> edge_at kind edges i = Ok (nth i edges d).
Proof.
  intros Hi. unfold edge_at. destruct edges as [|e0 es]; [simpl in Hi; lia|].
  destruct kind.
  - rewrite (nth_error_nth' (e0 :: es) d Hi). reflexivity.
  - rewrite Nat.min_l by lia. f_equal. now apply nth_indep.
Qed.

Lemma edge_at_numpy_past_end (edges : list F) (i : nat) :
  length edges <= i -> edge_at NumPyArray edges i = Raise IndexError.
Proof.
  intros Hi. unfold edge_at. destruct edges as [|e0 es]; [reflexivity|].
  now rewrite (proj2 (nth_error_None (e0 :: es) i) Hi).
Qed.

Lemma edge_at_numpy_ok (edges : list F) (i : nat) (e : F) :
  edge_at NumPyArray edges i = Ok e -> i < length edges.
Proof.
  intros Hok. destruct (Nat.lt_ge_cases i (length edges)) as [Hlt | Hge];
    [assumption|].
  rewrite (edge_at_numpy_past_end edges i Hge) in Hok. discriminate.
Qed.

Lemma edge_at_jax_past_end (edges : list F) (i : nat) (d : F) :
  edges <> [] ->
  length edges - 1 <= i ->
  edge_at JaxArray edges i = Ok (nth (length edges - 1) edges d).
Proof.
  intros Hne Hi. unfold edge_at. destruct edges as [|e0 es]; [now elim Hne|].
  rewrite Nat.min_r by exact Hi. f_equal. apply nth_indep. simpl. lia.
Qed.

Lemma skipn_nth_cons {A : Type} (l : list A) (i : nat) (d : A) :
  i < length l -> skipn i l = nth i l d :: skipn (S i) l.
Proof.
  revert i. induction l as [|x l IH]; intros i Hi; [simpl in Hi; lia|].
  destruct i as [|i]; [reflexivity|].
  cbn [skipn nth]. apply IH. simpl in Hi. lia.
Qed.

Lemma first_bin_le_length (edges : list F) (v : F) :
  first_bin edges v <= length edges.
Proof.
  induction edges as [|e es IH]; cbn; [lia|].
  destruct (fltb e v); lia.
Qed.

Lemma first_bin_below (edges : list F) (v : F) (j : nat) (d : F) :
  j < first_bin edges v -> fltb (nth j edges d) v = true.
Proof.
  revert j. induction edges as [|e es IH]; intros j Hj; [simpl in Hj; lia|].
  cbn in Hj. destruct (fltb e v) eqn:He; [|lia].
  destruct j as [|j]; [exact He|]. cbn. apply IH. lia.
Qed.

Lemma first_bin_stop (edges : list F) (v : F) (d : F) :
  first_bin edges v < length edges ->
  fltb (nth (first_bin edges v) edges d) v = false.
Proof.
  induction edges as [|e es IH]; intros Hlt; [simpl in Hlt; lia|].
  cbn in *. destruct (fltb e v) eqn:He; [|exact He].
  apply IH. lia.
Qed.

Lemma first_bin_all (edges : list F) (v : F) :
  Forall (fun e => fltb e v = true) edges ->
  first_bin edges v = length edges.
Proof.
  induction 1 as [|e es He Hes IH]; cbn; [reflexivity|].
  now rewrite He, IH.
Qed.

Lemma first_bin_split (edges : list F) (v : F) (b : nat) (d : F) :
  b <= length edges ->
  (forall j, j < b -> fltb (nth j edges d) v = true) ->
  first_bin edges v = b + first_bin (skipn b edges) v.
Proof.
  revert b. induction edges as [|e es IH]; intros b Hb Hbelow.
  - simpl in Hb. assert (b = 0) by lia. subst b. reflexivity.
  - destruct b as [|b]; [reflexivity|].
    cbn [first_bin skipn].
    assert (H0 : fltb e v = true) by (apply (Hbelow 0); lia). rewrite H0.
    cbn [Nat.add]. f_equal. apply IH; [simpl in Hb; lia|].
    intros j Hj. apply (Hbelow (S j)). lia.
Qed.

(** A value whose first stopping edge lies [k] bins past the bookmark
    is found there, given [max 1 k] frames. *)
Lemma get_bin_number_found (kind : array_kind) (edges : list F) (v : F) :
  forall depth b,
    b + first_bin (skipn b edges) v < length edges ->
    Nat.max 1 (first_bin (skipn b edges) v) <= depth ->
    get_bin_number depth kind edges b v
    = Some (Ok (b + first_bin (skipn b edges) v)).
Proof.
  induction depth as [|depth IH]; intros b Hrange Hdepth; [lia|].
  assert (Hb : b < length edges) by lia.
  cbn [get_bin_number]. rewrite (edge_at_in_range kind edges b fzero Hb).
  rewrite (skipn_nth_cons edges b fzero Hb) in *. cbn [first_bin] in *.
  destruct (fltb (nth b edges fzero) v) eqn:Hover.
  - assert (Hb1 : S b < length edges) by lia.
    rewrite (edge_at_in_range kind edges (S b) fzero Hb1).
    specialize (IH (S b)).
    rewrite (skipn_nth_cons edges (S b) fzero Hb1) in *. cbn [first_bin] in *.
    destruct (fltb (nth (S b) edges fzero) v) eqn:Hover2.
    + rewrite IH by lia. do 2 f_equal. lia.
    + do 2 f_equal. lia.
  - do 2 f_equal. lia.
Qed.

(** With fewer frames than bins to skip the interpreter gives up. *)
Lemma get_bin_number_too_deep (kind : array_kind) (edges : list F) (v : F) :
  forall depth b,
    b + first_bin (skipn b edges) v < length edges ->
    depth < Nat.max 1 (first_bin (skipn b edges) v) ->
    get_bin_number depth kind edges b v = None.
Proof.
  induction depth as [|depth IH]; intros b Hrange Hdepth; [reflexivity|].
  assert (Hb : b < length edges) by lia.
  cbn [get_bin_number]. rewrite (edge_at_in_range kind edges b fzero Hb).
  rewrite (skipn_nth_cons edges b fzero Hb) in *. cbn [first_bin] in *.
  destruct (fltb (nth b edges fzero) v) eqn:Hover; [|lia].
  assert (Hb1 : S b < length edges) by lia.
  rewrite (edge_at_in_range kind edges (S b) fzero Hb1).
  specialize (IH (S b)).
  rewrite (skipn_nth_cons edges (S b) fzero Hb1) in *. cbn [first_bin] in *.
  destruct (fltb (nth (S b) edges fzero) v) eqn:Hover2; [|lia].
  apply IH; lia.
Qed.

(** NumPy indexing: a value above every edge from the bookmark on runs
    off the end. *)
Lemma get_bin_number_numpy_overflow (edges : list F) (v : F) :
  forall depth b,
    b <= length edges ->
    b + first_bin (skipn b edges) v = length edges ->
    Nat.max 1 (first_bin (skipn b edges) v) <= depth ->
    get_bin_number depth NumPyArray edges b v = Some (Raise IndexError).
Proof.
  induction depth as [|depth IH]; intros b Hb Hall Hdepth; [lia|].
  cbn [get_bin_number].
  destruct (Nat.eq_dec b (length edges)) as [-> | Hneq].
  - now rewrite edge_at_numpy_past_end by lia.
  - assert (Hlt : b < length edges) by lia.
    rewrite (edge_at_in_range NumPyArray edges b fzero Hlt).
    rewrite (skipn_nth_cons edges b fzero Hlt) in *. cbn [first_bin] in *.
    destruct (fltb (nth b edges fzero) v) eqn:Hover; [|lia].
    destruct (Nat.eq_dec (S b) (length edges)) as [Heq | Hneq1].
    + now rewrite edge_at_numpy_past_end by lia.
    + assert (Hlt1 : S b < length edges) by lia.
      rewrite (edge_at_in_range NumPyArray edges (S b) fzero Hlt1).
      specialize (IH (S b)).
      rewrite (skipn_nth_cons edges (S b) fzero Hlt1) in *.
      cbn [first_bin] in *.
      destruct (fltb (nth (S b) edges fzero) v) eqn:Hover2; [|lia].
      apply IH; lia.
Qed.

(** JAX indexing: once every clamped lookup from the bookmark on is
    below the value, the recursion has no way out. *)
Lemma get_bin_number_jax_diverges (edges : list F) (v : F) :
  forall depth b,
    (forall i, b <= i ->
       exists e, edge_at JaxArray edges i = Ok e /\ fltb e v = true) ->
    get_bin_number depth JaxArray edges b v = None.
Proof.
  induction depth as [|depth IH]; intros b Hall; [reflexivity|].
  cbn [get_bin_number].
  destruct (Hall b (Nat.le_refl b)) as (e & -> & ->).
  destruct (Hall (S b) (Nat.le_succ_diag_r b)) as (e' & -> & ->).
  apply IH. intros i Hi. apply Hall. lia.
Qed.

(** What a returned bin number satisfies. *)
Lemma get_bin_number_returned (kind : array_kind) (edges : list F) (v : F) :
  forall depth b b',
    get_bin_number depth kind edges b v = Some (Ok b') ->
    b <= b'
    /\ exists e, edge_at kind edges b' = Ok e /\ fltb e v = false.
Proof.
  induction depth as [|depth IH]; intros b b' Hres; [discriminate|].
  cbn [get_bin_number] in Hres.
  destruct (edge_at kind edges b) as [e|] eqn:He; [|discriminate].
  destruct (fltb e v) eqn:Hover.
  - destruct (edge_at kind edges (S b)) as [e'|] eqn:He'; [|discriminate].
    destruct (fltb e' v) eqn:Hover2.
    + destruct (IH (S b) b' Hres) as (Hle & Hex). split; [lia | exact Hex].
    + injection Hres as <-. split; [lia|]. now exists e'.
  - injection Hres as <-. split; [lia|]. now exists e.
Qed.

Lemma get_bin_number_in_range (kind : array_kind) (edges : list F) (v : F) :
  forall depth b b',
    b < length edges ->
    get_bin_number depth kind edges b v = Some (Ok b') ->
    b' < length edges.
Proof.
  destruct kind.
  - intros depth b b' _ Hres.
    destruct (get_bin_number_returned NumPyArray edges v depth b b' Hres)
      as (_ & e & He & _).
    now apply (edge_at_numpy_ok edges b' e).
  - induction depth as [|depth IH]; intros b b' Hb Hres; [discriminate|].
    assert (Hne : edges <> []) by (intros ->; simpl in Hb; lia).
    cbn [get_bin_number] in Hres.
    rewrite (edge_at_in_range JaxArray edges b fzero Hb) in Hres.
    destruct (fltb (nth b edges fzero) v) eqn:Hover.
    + destruct (Nat.lt_ge_cases (S b) (length edges)) as [Hlt | Hge].
      * rewrite (edge_at_in_range JaxArray edges (S b) fzero Hlt) in Hres.
        destruct (fltb (nth (S b) edges fzero) v);
          [now apply (IH (S b)) | now injection Hres as <-].
      * assert (Hlast : length edges - 1 = b) by lia.
        rewrite (edge_at_jax_past_end edges (S b) fzero Hne) in Hres by lia.
        rewrite Hlast, Hover in Hres.
        rewrite get_bin_number_jax_diverges in Hres; [discriminate|].
        intros i Hi. exists (nth b edges fzero). split; [|exact Hover].
        rewrite (edge_at_jax_past_end edges i fzero Hne) by lia.
        now rewrite Hlast.
    + now injection Hres as <-.
Qed.

End BinLookupFacts.

Section BinLoopFacts.

Context {F : Type} `{Scalar F}.

Lemma first_bin_exists (edges : list F) (v : F) :
  Exists (fun e => fltb e v = false) edges ->
  first_bin edges v < length edges.
Proof.
  induction 1 as [e es He | e es Hes IH]; cbn.
  - rewrite He. lia.
  - destruct (fltb e v); lia.
Qed.

Lemma bin_loop_returned (kind : array_kind) (edges : list F) (depth : nat) :
  forall values b bins,
    bin_loop depth kind edges b values = Some (Ok bins) ->
    length bins = length values
    /\ StronglySorted le (b :: bins)
    /\ Forall2
         (fun v bn => exists e, edge_at kind edges bn = Ok e /\ fltb e v = false)
         values bins.
Proof.
  induction values as [|v vs IH]; intros b bins Hres.
  - cbn in Hres. injection Hres as <-.
    repeat split; repeat constructor.
  - cbn [bin_loop] in Hres.
    destruct (get_bin_number depth kind edges b v) as [[b1|e]|] eqn:Hb1;
      try discriminate.
    destruct (bin_loop depth kind edges b1 vs) as [[bins1|e]|] eqn:Hloop;
      try discriminate.
    injection Hres as <-.
    destruct (IH b1 bins1 Hloop) as (Hlen & Hsorted & Hedges).
    destruct (get_bin_number_returned kind edges v depth b b1 Hb1)
      as (Hle & Hedge).
    split; [simpl; now rewrite Hlen|]. split.
    + constructor; [assumption|].
      inversion Hsorted as [|? ? _ Hall]; subst.
      constructor; [assumption|].
      eapply Forall_impl; [|exact Hall]. intros bn Hbn. cbn in Hbn. lia.
    + constructor; assumption.
Qed.

Lemma bin_loop_in_range (kind : array_kind) (edges : list F) (depth : nat) :
  forall values b bins,
    b < length edges ->
    bin_loop depth kind edges b values = Some (Ok bins) ->
    Forall (fun bn => bn < length edges) bins.
Proof.
  induction values as [|v vs IH]; intros b bins Hb Hres.
  - cbn in Hres. injection Hres as <-. constructor.
  - cbn [bin_loop] in Hres.
    destruct (get_bin_number depth kind edges b v) as [[b1|e]|] eqn:Hb1;
      try discriminate.
    destruct (bin_loop depth kind edges b1 vs) as [[bins1|e]|] eqn:Hloop;
      try discriminate.
    injection Hres as <-.
    pose proof (get_bin_number_in_range kind edges v depth b b1 Hb Hb1) as Hr.
    constructor; [assumption|]. now apply (IH b1).
Qed.

Lemma last_default_indep {A : Type} (l : list A) (d d' : A) :
  l <> [] -> last l d = last l d'.
Proof.
  induction l as [|x l IH]; intros Hne; [now elim Hne|].
  cbn [last]. destruct l as [|y l]; [reflexivity|].
  apply IH. discriminate.
Qed.

Lemma last_cons_default {A : Type} (x : A) (l : list A) (d : A) :
  last (x :: l) d = last l x.
Proof.
  destruct l as [|y l]; [reflexivity|].
  change (last (x :: y :: l) d) with (last (y :: l) d).
  apply last_default_indep. discriminate.
Qed.

Lemma bin_loop_app (kind : array_kind) (edges : list F) (depth : nat)
  (rest : list F) :
  forall pre b bins,
    bin_loop depth kind edges b pre = Some (Ok bins) ->
    bin_loop depth kind edges b (pre ++ rest)
    = match bin_loop depth kind edges (last bins b) rest with
      | Some (Ok bins') => Some (Ok (bins ++ bins'))
      | other => other
      end.
Proof.
  induction pre as [|v vs IH]; intros b bins Hres.
  - cbn in Hres. injection Hres as <-. cbn [app last].
    now destruct (bin_loop depth kind edges b rest) as [[?|?]|].
  - cbn [bin_loop app] in *.
    destruct (get_bin_number depth kind edges b v) as [[b1|e]|] eqn:Hb1;
      try discriminate.
    destruct (bin_loop depth kind edges b1 vs) as [[bins1|e]|] eqn:Hloop;
      try discriminate.
    injection Hres as <-. rewrite (IH b1 bins1 Hloop).
    rewrite (last_cons_default b1 bins1 b).
    now destruct (bin_loop depth kind edges (last bins1 b1) rest) as [[?|?]|].
Qed.

End BinLoopFacts.

Section BinOrderFacts.

Context {F : Type} `{OrderLaws F}.

Lemma fltb_below_later (e v v' : F) :
  fltb e v = true -> fltb v' v = false -> fltb e v' = true.
Proof.
  intros Hev Hvv'. destruct (fltb v v') eqn:Hlt.
  - exact (fltb_trans e v v' Hev Hlt).
  - now rewrite <- (fltb_connected v v' Hlt Hvv').
Qed.

Lemma bin_loop_ascending (kind : array_kind) (edges : list F) (depth : nat) :
  forall values b,
    ascending values ->
    Forall (fun v => first_bin edges v < length edges) values ->
    b <= length edges ->
    (forall v, In v values ->
       forall j, j < b -> fltb (nth j edges fzero) v = true) ->
    length edges <= depth ->
    bin_loop depth kind edges b values
    = Some (Ok (map (first_bin edges) values)).
Proof.
  induction values as [|v vs IH]; intros b Hasc Hbins Hb Hbelow Hdepth;
    [reflexivity|].
  inversion Hasc as [|? ? Hasc' Hlater]; subst.
  inversion Hbins as [|? ? Hv Hbins']; subst.
  pose proof (first_bin_split edges v b fzero Hb
                (Hbelow v (or_introl eq_refl))) as Hsplit.
  cbn [bin_loop map].
  rewrite (get_bin_number_found kind edges v depth b) by lia.
  rewrite <- Hsplit. rewrite IH; try assumption; [reflexivity | lia |].
  intros v' Hv' j Hj. rewrite Forall_forall in Hlater.
  apply (fltb_below_later (nth j edges fzero) v v').
  - now apply first_bin_below.
  - now apply Hlater.
Qed.

End BinOrderFacts.

Lemma bin_numbers_in_range {F : Type} `{Scalar F} (kind : array_kind)
  (depth : nat) (values edges : list F) (bins : list nat) :
  get_bin_numbers depth kind values edges = Some (Ok bins) ->
  Forall (fun bn => bn < length edges) bins.
Proof.
  unfold get_bin_numbers. intros Hres. destruct edges as [|e0 es].
  - destruct values as [|v vs];
      [cbn in Hres; injection Hres as <-; constructor|].
    cbn [bin_loop] in Hres. destruct depth; cbn in Hres; discriminate.
  - apply (bin_loop_in_range kind (e0 :: es) depth values 0 bins);
      [simpl; lia | assumption].
Qed.

Section BinArrayFacts.

Context {F : Type} `{Scalar F}.

Lemma store_at_middle (done rest : list F) (x v : F) :
  store_at (done ++ x :: rest) (length done) v = Ok (done ++ v :: rest).
Proof.
  induction done as [|y done IH]; cbn [app length store_at]; [reflexivity|].
  now rewrite IH.
Qed.

(** The array after the loop: the entries written so far, then the
    conversions of the bookmarks of the values still to come. *)
Lemma bin_numbers_loop_bookmarks (cast : nat -> F) (kind : array_kind)
  (edges : list F) (depth : nat) :
  forall (values done rest : list F) (b : nat),
    length rest = length values ->
    bin_numbers_loop cast depth kind edges b (length done) values (done ++ rest)
    = match bin_loop depth kind edges b values with
      | None => None
      | Some (Raise e) => Some (Raise e)
      | Some (Ok bins) => Some (Ok (done ++ map cast bins))
      end.
Proof.
  induction values as [|v values IH]; intros done rest b Hlen.
  - destruct rest; [reflexivity | discriminate].
  - destruct rest as [|x rest]; [discriminate|]. injection Hlen as Hlen.
    cbn [bin_numbers_loop bin_loop].
    destruct (get_bin_number depth kind edges b v) as [[b'|e]|];
      [|reflexivity|reflexivity].
    rewrite store_at_middle.
    replace (done ++ cast b' :: rest) with ((done ++ [cast b']) ++ rest)
      by (now rewrite <- app_assoc).
    replace (S (length done)) with (length (done ++ [cast b']))
      by (rewrite length_app; cbn [length]; lia).
    rewrite (IH (done ++ [cast b']) rest b' Hlen).
    destruct (bin_loop depth kind edges b' values) as [[bins|e]|];
      [|reflexivity|reflexivity].
    now rewrite <- app_assoc.
Qed.

(** The returned array holds the conversions of the bookmarks; the call
    raises, or runs out of frames, exactly where the bookmarks do. *)
Lemma get_bin_numbers_array_bookmarks (cast : nat -> F) (kind : array_kind)
  (depth : nat) (values edges : list F) :
  get_bin_numbers_array cast depth kind values edges
  = match get_bin_numbers depth kind values edges with
    | None => None
    | Some (Raise e) => Some (Raise e)
    | Some (Ok bins) => Some (Ok (map cast bins))
    end.
Proof.
  unfold get_bin_numbers_array, get_bin_numbers.
  apply (bin_numbers_loop_bookmarks cast kind edges depth values []
           (np_zeros_like values) 0).
  unfold np_zeros_like. apply length_map.
Qed.

End BinArrayFacts.

(** With [uint8] values and 301 edges, the bin number 300 of the value
    200 comes back as 44. *)
Example get_bin_numbers_array_uint8 :
  get_bin_numbers_array astype_uint8 301 NumPyArray [200]%Z
    (map (fun k => (Z.of_nat k - 100)%Z) (seq 0 301))
  = Some (Ok [44%Z])
  /\ get_bin_numbers 301 NumPyArray [200]%Z
       (map (fun k => (Z.of_nat k - 100)%Z) (seq 0 301))
     = Some (Ok [300]).
Proof. split; vm_compute; reflexivity. Qed.

(** X13.  On values in non-decreasing order, each with an edge that is
    not below it, and with at least as many frames as there are edges,
    [get_bin_numbers] returns an array that holds for every value the
    number of its first bin, converted to the values' element type: the
    edge of that bin is not below the value and every edge before it
    is.  This holds for NumPy and for JAX edges alike, whatever the
    order of the edges and whatever the conversion. *)
Theorem get_bin_numbers_ascending_values :
  forall (F : Type) (S : Scalar F) (O : OrderLaws F) (cast : nat -> F)
         (kind : array_kind) (depth : nat) (values edges : list F),
    ascending values ->
    Forall (fun v => Exists (fun e => fltb e v = false) edges) values ->
    length edges <= depth ->
    get_bin_numbers_array cast depth kind values edges
    = Some (Ok (map (fun v => cast (first_bin edges v)) values))
    /\ Forall
         (fun v =>
            first_bin edges v < length edges
            /\ fltb (nth (first_bin edges v) edges fzero) v = false
            /\ forall j, j < first_bin edges v ->
                         fltb (nth j edges fzero) v = true)
         values.
Proof.
  intros F S O cast kind depth values edges Hasc Hex Hdepth.
  assert (Hbins : Forall (fun v => first_bin edges v < length edges) values).
  { eapply Forall_impl; [|exact Hex]. intros v. apply first_bin_exists. }
  split.
  - rewrite get_bin_numbers_array_bookmarks. unfold get_bin_numbers.
    assert (Hloop : bin_loop depth kind edges 0 values
                    = Some (Ok (map (first_bin edges) values))).
    { apply bin_loop_ascending; try assumption; [lia|].
      intros v _ j Hj. lia. }
    rewrite Hloop. now rewrite map_map.
  - eapply Forall_impl; [|exact Hbins]. intros v Hv.
    split; [assumption|]. split; [now apply first_bin_stop|].
    intros j Hj. now apply first_bin_below.
Qed.

Lemma get_bin_numbers_ascending_values_witness :
  get_bin_numbers_array Z.of_nat 4 JaxArray [1; 2; 2; 5; 9]%Z [0; 3; 6; 9]%Z
  = Some (Ok (map (fun v => Z.of_nat (first_bin [0; 3; 6; 9]%Z v))
                [1; 2; 2; 5; 9]%Z))
  /\ Forall
       (fun v =>
          first_bin [0; 3; 6; 9]%Z v < length [0; 3; 6; 9]%Z
          /\ fltb (nth (first_bin [0; 3; 6; 9]%Z v) [0; 3; 6; 9]%Z fzero) v
             = false
          /\ forall j, j < first_bin [0; 3; 6; 9]%Z v ->
                       fltb (nth j [0; 3; 6; 9]%Z fzero) v = true)
       [1; 2; 2; 5; 9]%Z.
Proof.
  apply (get_bin_numbers_ascending_values Z Z_Scalar Z_OrderLaws Z.of_nat
           JaxArray 4 [1; 2; 2; 5; 9]%Z [0; 3; 6; 9]%Z).
  - unfold ascending. repeat constructor.
  - repeat (constructor;
            [first [ apply Exists_cons_hd; reflexivity
                   | apply Exists_cons_tl; apply Exists_cons_hd; reflexivity
                   | do 2 apply Exists_cons_tl; apply Exists_cons_hd; reflexivity
                   | do 3 apply Exists_cons_tl; apply Exists_cons_hd; reflexivity ]
            |]).
    constructor.
  - simpl. lia.
Defined.

(** X14.  Whatever the order of the values, the array that
    [get_bin_numbers] returns has one entry per value, and its entries
    are the conversions to the values' element type of bin numbers that
    never decrease (the bookmark only moves forward), each an index
    into the edges whose edge is not below its value.  The entries
    themselves need not be those numbers: a narrow integer type wraps
    them. *)
Theorem get_bin_numbers_returned :
  forall (F : Type) (S : Scalar F) (cast : nat -> F) (kind : array_kind)
         (depth : nat) (values edges stored : list F),
    get_bin_numbers_array cast depth kind values edges = Some (Ok stored) ->
    exists bins : list nat,
      stored = map cast bins
      /\ length stored = length values
      /\ StronglySorted le bins
      /\ Forall (fun bn => bn < length edges) bins
      /\ Forall2 (fun v bn => fltb (nth bn edges fzero) v = false) values bins.
Proof.
  intros F S cast kind depth values edges stored Hres.
  rewrite get_bin_numbers_array_bookmarks in Hres.
  destruct (get_bin_numbers depth kind values edges) as [[bins|e]|] eqn:Hbins;
    [|discriminate|discriminate].
  injection Hres as <-. exists bins.
  pose proof (bin_numbers_in_range kind depth values edges bins Hbins) as Hrange.
  unfold get_bin_numbers in Hbins.
  destruct (bin_loop_returned kind edges depth values 0 bins Hbins)
    as (Hlen & Hsorted & Hedges).
  split; [reflexivity|].
  split; [now rewrite length_map|].
  split; [now inversion Hsorted|].
  split; [assumption|].
  clear Hbins Hlen Hsorted. revert Hrange.
  induction Hedges as [|v bn vs bns (e & He & Hle) Hrest IH]; intros Hrange;
    constructor.
  - inversion Hrange as [|? ? Hbn _]; subst.
    rewrite (edge_at_in_range kind edges bn fzero Hbn) in He.
    now injection He as ->.
  - apply IH. now inversion Hrange.
Qed.

Lemma get_bin_numbers_returned_witness :
  exists bins : list nat,
    [44]%Z = map astype_uint8 bins
    /\ length [44]%Z = length [200]%Z
    /\ StronglySorted le bins
    /\ Forall
         (fun bn =>
            bn < length (map (fun k => (Z.of_nat k - 100)%Z) (seq 0 301)))
         bins
    /\ Forall2
         (fun v bn =>
            fltb (nth bn (map (fun k => (Z.of_nat k - 100)%Z) (seq 0 301))
                    fzero) v
            = false)
         [200]%Z bins.
Proof.
  apply (get_bin_numbers_returned Z Z_Scalar astype_uint8 NumPyArray 301
           [200]%Z (map (fun k => (Z.of_nat k - 100)%Z) (seq 0 301)) [44]%Z).
  vm_compute. reflexivity.
Defined.

(** X15.  A value above every edge ends the call, once the values
    before it have been placed: with NumPy edges the lookup runs off the
    end and raises [IndexError]; with JAX edges the clamped lookup keeps
    answering with the last edge and the recursion ends in
    [RecursionError], however many frames there are. *)
Theorem get_bin_numbers_value_above_edges :
  forall (F : Type) (S : Scalar F) (kind : array_kind) (depth : nat)
         (pre : list F) (v : F) (post edges : list F) (bins : list nat),
    get_bin_numbers depth kind pre edges = Some (Ok bins) ->
    Forall (fun e => fltb e v = true) edges ->
    length edges < depth ->
    get_bin_numbers depth kind (pre ++ v :: post) edges
    = match kind, edges with
      | JaxArray, _ :: _ => None
      | _, _ => Some (Raise IndexError)
      end.
Proof.
  intros F S kind depth pre v post edges bins Hpre Hall Hdepth.
  unfold get_bin_numbers in *.
  rewrite (bin_loop_app kind edges depth (v :: post) pre 0 bins Hpre).
  set (b := last bins 0).
  assert (Hb : b <= length edges).
  { subst b. destruct bins as [|b0 bs] using rev_ind; [cbn; lia|].
    rewrite last_last.
    pose proof (bin_numbers_in_range kind depth pre edges (bs ++ [b0]) Hpre)
      as Hrange.
    rewrite Forall_forall in Hrange.
    assert (Hb0 : b0 < length edges)
      by (apply Hrange, in_or_app; right; now left).
    lia. }
  cbn [bin_loop].
  assert (Hskip : Forall (fun e => fltb e v = true) (skipn b edges)).
  { apply Forall_forall. intros e He. rewrite Forall_forall in Hall.
    apply Hall. rewrite <- (firstn_skipn b edges). apply in_or_app. now right. }
  pose proof (first_bin_all (skipn b edges) v Hskip) as Hk.
  rewrite length_skipn in Hk.
  destruct kind.
  - rewrite get_bin_number_numpy_overflow; [now destruct edges | assumption | lia | lia].
  - destruct edges as [|e0 es].
    + destruct depth; [lia|]. reflexivity.
    + rewrite get_bin_number_jax_diverges; [reflexivity|].
      intros i _. cbn [edge_at].
      eexists. split; [reflexivity|].
      rewrite Forall_forall in Hall. apply Hall. apply nth_In.
      cbn [length]. lia.
Qed.

Lemma get_bin_numbers_value_above_edges_witness :
  get_bin_numbers 5 JaxArray ([1; 2] ++ 10 :: [11])%Z [0; 3; 6; 9]%Z = None.
Proof.
  apply (get_bin_numbers_value_above_edges Z Z_Scalar JaxArray 5
           [1; 2]%Z 10%Z [11]%Z [0; 3; 6; 9]%Z [1; 1]).
  - reflexivity.
  - repeat constructor.
  - simpl. lia.
Defined.

(** X16.  The recursion of [get_bin_number] goes one frame deeper for
    every bin it skips: a value whose first bin is [k] is placed, with
    [k] converted to the values' element type as the array's only
    entry, when the interpreter allows [max 1 k] frames, and the call
    ends in [RecursionError] when it allows fewer. *)
Theorem get_bin_numbers_frames :
  forall (F : Type) (S : Scalar F) (cast : nat -> F) (kind : array_kind)
         (depth : nat) (v : F) (edges : list F),
    Exists (fun e => fltb e v = false) edges ->
    get_bin_numbers_array cast depth kind [v] edges
    = if Nat.leb (Nat.max 1 (first_bin edges v)) depth
      then Some (Ok [cast (first_bin edges v)])
      else None.
Proof.
  intros F S cast kind depth v edges Hex.
  pose proof (first_bin_exists edges v Hex) as Hbin.
  rewrite get_bin_numbers_array_bookmarks.
  unfold get_bin_numbers. cbn [bin_loop].
  destruct (Nat.leb_spec (Nat.max 1 (first_bin edges v)) depth) as [Hle | Hlt].
  - rewrite (get_bin_number_found kind edges v depth 0); [reflexivity | | ];
      cbn [skipn Nat.add]; assumption.
  - rewrite (get_bin_number_too_deep kind edges v depth 0); [reflexivity | | ];
      cbn [skipn Nat.add]; assumption.
Qed.

Lemma get_bin_numbers_frames_witness :
  get_bin_numbers_array Z.of_nat 2 NumPyArray [9]%Z [0; 3; 6; 9]%Z = None.
Proof.
  apply (get_bin_numbers_frames Z Z_Scalar Z.of_nat NumPyArray 2 9%Z
           [0; 3; 6; 9]%Z).
  do 3 apply Exists_cons_tl. apply Exists_cons_hd. reflexivity.
Defined.

(** ** Facts about resampling *)

Section SortFacts.

Lemma insert_nat_length (x : nat) (l : list nat) :
  length (insert_nat x l) = S (length l).
Proof.
  induction l as [|y l IH]; cbn; [reflexivity|].
  destruct (Nat.leb x y); cbn; now rewrite ?IH.
Qed.

Lemma insert_nat_In (x y : nat) (l : list nat) :
  In y (insert_nat x l) <-> y = x \/ In y l.
Proof.
  induction l as [|z l IH]; cbn.
  - intuition congruence.
  - destruct (Nat.leb x z); cbn; rewrite ?IH; intuition congruence.
Qed.

Lemma insert_nat_sorted (x : nat) (l : list nat) :
  StronglySorted le l -> StronglySorted le (insert_nat x l).
Proof.
  induction 1 as [|y l Hl IH Hall]; cbn.
  - repeat constructor.
  - destruct (Nat.leb_spec x y) as [Hle | Hgt].
    + constructor; [now constructor|].
      constructor; [assumption|].
      eapply Forall_impl; [|exact Hall]. intros z Hz. cbn in Hz. lia.
    + constructor; [assumption|].
      apply Forall_forall. intros z Hz. apply insert_nat_In in Hz.
      rewrite Forall_forall in Hall. destruct Hz as [-> | Hz]; [lia|].
      now apply Hall.
Qed.

Lemma np_sort_length (a : list nat) : length (np_sort a) = length a.
Proof.
  unfold np_sort. induction a as [|x a IH]; cbn; [reflexivity|].
  now rewrite insert_nat_length, IH.
Qed.

Lemma np_sort_In (a : list nat) (y : nat) : In y (np_sort a) <-> In y a.
Proof.
  unfold np_sort. induction a as [|x a IH]; cbn; [tauto|].
  rewrite insert_nat_In, IH. intuition congruence.
Qed.

Lemma np_sort_sorted (a : list nat) : StronglySorted le (np_sort a).
Proof.
  unfold np_sort. induction a as [|x a IH]; cbn.
  - constructor.
  - now apply insert_nat_sorted.
Qed.

Lemma sorted_app (a b : list nat) :
  StronglySorted le a ->
  StronglySorted le b ->
  (forall x y, In x a -> In y b -> x <= y) ->
  StronglySorted le (a ++ b).
Proof.
  induction 1 as [|x a Ha IH Hall]; intros Hb Hab; cbn; [assumption|].
  constructor.
  - apply IH; [assumption|]. intros u w Hu Hw. apply Hab; [now right | assumption].
  - apply Forall_app. split; [assumption|].
    apply Forall_forall. intros w Hw. apply Hab; [now left | assumption].
Qed.

Lemma np_cumsum_edge (a b : list nat) :
  forall acc,
    nth (length a) (acc :: np_cumsum_from acc (a ++ b)) 0 = acc + list_sum a.
Proof.
  induction a as [|x a IH]; intros acc.
  - cbn. lia.
  - change (nth (length (x :: a)) (acc :: np_cumsum_from acc ((x :: a) ++ b)) 0)
      with (nth (length a) ((acc + x) :: np_cumsum_from (acc + x) (a ++ b)) 0).
    rewrite IH. unfold list_sum. cbn [fold_right]. lia.
Qed.

End SortFacts.

Section SamplingFacts.

Variable draw : N -> nat -> nat -> list nat * N.
Hypothesis Hdraw : draws_in_range draw.

Lemma np_random_choice_ok (s : N) (a : list nat) (size : nat) :
  0 < length a ->
  exists sample s',
    np_random_choice draw s a size = (Ok sample, s')
    /\ length sample = size
    /\ Forall (fun x => In x a) sample.
Proof.
  intros Ha. unfold np_random_choice.
  destruct (Nat.eqb_spec (length a) 0) as [Hz | _]; [lia|]. cbn [andb].
  destruct (Hdraw s (length a) size) as (Hlen & Hrange).
  specialize (Hrange Ha).
  destruct (draw s (length a) size) as [positions s']. cbn [fst] in *.
  exists (map (fun p => nth p a 0) positions), s'.
  split; [reflexivity|]. split; [now rewrite length_map|].
  apply Forall_forall. intros x Hx. apply in_map_iff in Hx.
  destruct Hx as (p & <- & Hp). rewrite Forall_forall in Hrange.
  apply nth_In. now apply Hrange.
Qed.

Lemma sample_bar_block (s : N) (edges hs : list nat) (i : nat) (n : Z)
  (acc : list nat) (lo h : nat) :
  nth i edges 0 = lo ->
  nth (S i) edges 0 = lo + h ->
  nth i hs 0 = h ->
  ((0 < n)%Z -> 0 < h) ->
  exists block s',
    sample_bar draw s edges hs i n acc = (Ok (acc ++ block), s')
    /\ bar_block lo h n block.
Proof.
  intros Hlo Hhi Hh Hserve. unfold sample_bar, np_arange.
  rewrite Hlo, Hhi, Hh. replace (lo + h - lo) with h by lia.
  destruct (Z.leb_spec n 0) as [Hn | Hn].
  - exists [], s. rewrite app_nil_r. split; [reflexivity|].
    unfold bar_block, asked. repeat split.
    + cbn [length]. lia.
    + constructor.
    + constructor.
    + intros Hpos. lia.
  - specialize (Hserve Hn).
    assert (Hbase : 0 < length (seq lo h)) by (rewrite length_seq; lia).
    destruct (Z.leb_spec (Z.of_nat h) n) as [Hfull | Hpart].
    + destruct (np_random_choice_ok s (seq lo h)
                  (Z.to_nat (n - Z.of_nat h)) Hbase)
        as (rest & s' & -> & Hlen & Hin).
      exists (np_sort (seq lo h ++ rest)), s'. split; [reflexivity|].
      unfold bar_block, asked. repeat split.
      * rewrite np_sort_length, length_app, length_seq, Hlen. lia.
      * apply np_sort_sorted.
      * apply Forall_forall. intros x Hx. rewrite np_sort_In in Hx.
        apply in_app_or in Hx. rewrite Forall_forall in Hin.
        destruct Hx as [Hx | Hx]; [|apply Hin in Hx];
          rewrite in_seq in Hx; lia.
      * intros _ _ x Hx. rewrite np_sort_In. apply in_or_app. now left.
    + destruct (np_random_choice_ok s (seq lo h) (Z.to_nat n) Hbase)
        as (sample & s' & -> & Hlen & Hin).
      exists (np_sort sample), s'. split; [reflexivity|].
      unfold bar_block, asked. repeat split.
      * rewrite np_sort_length, Hlen. lia.
      * apply np_sort_sorted.
      * apply Forall_forall. intros x Hx. rewrite np_sort_In in Hx.
        rewrite Forall_forall in Hin. apply Hin in Hx.
        rewrite in_seq in Hx. lia.
      * intros _ Habs. lia.
Qed.

(** The loop, bar by bar: [done] are the heights of the bars already
    visited, [todo] those of the bars that [ns] asks of, and the loop
    goes on with what is left. *)
Lemma sample_bars_prefix (ns : list Z) :
  forall (todo done left_heights : list nat) (left_asked : list Z) (s : N)
         (acc : list nat),
    bars_can_serve ns todo ->
    exists blocks s',
      sample_bars draw s (0 :: np_cumsum (done ++ todo ++ left_heights))
        (done ++ todo ++ left_heights) (length done) (ns ++ left_asked) acc
      = sample_bars draw s' (0 :: np_cumsum (done ++ todo ++ left_heights))
          (done ++ todo ++ left_heights) (length done + length todo)
          left_asked (acc ++ concat blocks)
      /\ bar_blocks (list_sum done) todo ns blocks.
Proof.
  induction ns as [|n ns IH];
    intros todo done left_heights left_asked s acc Hserve.
  - inversion Hserve; subst. exists [], s. cbn [app concat length].
    rewrite app_nil_r, Nat.add_0_r. split; [reflexivity | constructor].
  - inversion Hserve as [|? h ? todo' Hn Hrest]; subst.
    cbn [sample_bars app].
    destruct (sample_bar_block s
                (0 :: np_cumsum (done ++ h :: todo' ++ left_heights))
                (done ++ h :: todo' ++ left_heights) (length done) n acc
                (list_sum done) h)
      as (block & s1 & -> & Hblock).
    + unfold np_cumsum. now rewrite np_cumsum_edge.
    + unfold np_cumsum.
      replace (done ++ h :: todo' ++ left_heights)
        with ((done ++ [h]) ++ todo' ++ left_heights)
        by (now rewrite <- app_assoc).
      replace (S (length done)) with (length (done ++ [h]))
        by (rewrite length_app; cbn; lia).
      rewrite np_cumsum_edge, list_sum_app. cbn. lia.
    + now rewrite nth_middle.
    + exact Hn.
    + destruct (IH todo' (done ++ [h]) left_heights left_asked s1
                  (acc ++ block) Hrest)
        as (blocks & s' & Hrun & Hblocks).
      rewrite <- !app_assoc in Hrun. cbn [app] in Hrun.
      rewrite length_app in Hrun. cbn [length] in Hrun.
      rewrite Nat.add_1_r in Hrun. rewrite Hrun.
      exists (block :: blocks), s'. cbn [concat length]. split.
      * rewrite app_assoc. f_equal. lia.
      * constructor; [assumption|].
        rewrite list_sum_app in Hblocks. cbn in Hblocks.
        now rewrite Nat.add_0_r in Hblocks.
Qed.

Lemma sample_bars_blocks (ns : list Z) (heights : list nat) (s : N) :
  bars_can_serve ns heights ->
  exists blocks s',
    sample_bars draw s (0 :: np_cumsum heights) heights 0 ns []
    = (Ok (concat blocks), s')
    /\ bar_blocks 0 heights ns blocks.
Proof.
  intros Hserve.
  destruct (sample_bars_prefix ns heights [] [] [] s [] Hserve)
    as (blocks & s' & Hrun & Hblocks).
  cbn [app length Nat.add] in Hrun. rewrite !app_nil_r in Hrun.
  exists blocks, s'. split; [|exact Hblocks].
  rewrite Hrun. reflexivity.
Qed.

(** A bar that is asked for something and holds nothing stops the loop. *)
Lemma sample_bars_empty_bar (ns : list Z) (n : Z) (left_asked : list Z)
  (todo left_heights : list nat) (s : N) :
  bars_can_serve ns todo ->
  (0 < n)%Z ->
  fst (sample_bars draw s (0 :: np_cumsum (todo ++ 0 :: left_heights))
         (todo ++ 0 :: left_heights) 0 (ns ++ n :: left_asked) [])
  = Raise ValueError.
Proof.
  intros Hserve Hn.
  destruct (sample_bars_prefix ns todo [] (0 :: left_heights)
              (n :: left_asked) s [] Hserve)
    as (blocks & s' & Hrun & _).
  cbn [app length Nat.add] in Hrun. rewrite Hrun.
  cbn [sample_bars]. unfold sample_bar.
  assert (Hlo : nth (length todo) (0 :: np_cumsum (todo ++ 0 :: left_heights)) 0
                = list_sum todo)
    by (unfold np_cumsum; now rewrite np_cumsum_edge).
  assert (Hhi : nth (S (length todo))
                  (0 :: np_cumsum (todo ++ 0 :: left_heights)) 0
                = list_sum todo).
  { unfold np_cumsum.
    replace (todo ++ 0 :: left_heights) with ((todo ++ [0]) ++ left_heights)
      by (now rewrite <- app_assoc).
    replace (S (length todo)) with (length (todo ++ [0]))
      by (rewrite length_app; cbn; lia).
    rewrite np_cumsum_edge, list_sum_app. cbn. lia. }
  rewrite Hlo, Hhi, nth_middle. unfold np_arange.
  rewrite Nat.sub_diag. cbn [seq].
  destruct (Z.leb_spec n 0) as [Habs | _]; [lia|].
  destruct (Z.leb_spec (Z.of_nat 0) n) as [_ | Habs]; [|cbn in Habs; lia].
  unfold np_random_choice. cbn [length Nat.eqb andb].
  destruct (Nat.eqb_spec (Z.to_nat (n - Z.of_nat 0)) 0) as [Hz | _];
    [cbn in Hz; lia|].
  reflexivity.
Qed.

End SamplingFacts.

Section BlockFacts.

Lemma bar_blocks_length (lo : nat) (hs : list nat) (ns : list Z)
  (blocks : list (list nat)) :
  bar_blocks lo hs ns blocks ->
  length (concat blocks) = list_sum (map asked ns).
Proof.
  induction 1 as [|lo h hs n ns block blocks (Hlen & _) _ IH];
    [reflexivity|].
  cbn [concat map list_sum fold_right]. rewrite length_app, Hlen.
  unfold list_sum in IH. now rewrite IH.
Qed.

Lemma bar_blocks_range (lo : nat) (hs : list nat) (ns : list Z)
  (blocks : list (list nat)) :
  bar_blocks lo hs ns blocks ->
  Forall (fun x => lo <= x < lo + list_sum hs) (concat blocks).
Proof.
  induction 1 as [|lo h hs n ns block blocks (_ & _ & Hrange & _) _ IH];
    [constructor|].
  cbn [concat]. apply Forall_app. split.
  - eapply Forall_impl; [|exact Hrange]. intros x Hx. cbn in *.
    unfold list_sum. cbn [fold_right]. lia.
  - eapply Forall_impl; [|exact IH]. intros x Hx. cbn in *.
    unfold list_sum in *. cbn [fold_right]. lia.
Qed.

Lemma bar_blocks_sorted (lo : nat) (hs : list nat) (ns : list Z)
  (blocks : list (list nat)) :
  bar_blocks lo hs ns blocks ->
  StronglySorted le (concat blocks).
Proof.
  induction 1 as [|lo h hs n ns block blocks (_ & Hs & Hrange & _) Hrest IH];
    [constructor|].
  cbn [concat]. apply sorted_app; [assumption | assumption |].
  intros x y Hx Hy. rewrite Forall_forall in Hrange.
  specialize (Hrange x Hx). cbn in Hrange.
  pose proof (bar_blocks_range _ _ _ _ Hrest) as Hr.
  rewrite Forall_forall in Hr. specialize (Hr y Hy). cbn in Hr. lia.
Qed.

End BlockFacts.

Lemma sample_bars_nothing_asked (draw : N -> nat -> nat -> list nat * N)
  (edges heights : list nat) (ns : list Z) :
  Forall (fun n => (n <= 0)%Z) ns ->
  forall (i : nat) (s : N) (acc : list nat),
    sample_bars draw s edges heights i ns acc = (Ok acc, s).
Proof.
  induction 1 as [|n ns Hn Hns IH]; intros i s acc; [reflexivity|].
  cbn [sample_bars]. unfold sample_bar.
  destruct (Z.leb_spec n 0) as [_ | Habs]; [apply IH | lia].
Qed.

Lemma round_robin_in_range : draws_in_range round_robin.
Proof.
  intros s n size. unfold round_robin. cbn [fst]. split.
  - now rewrite length_map, length_seq.
  - intros Hn. apply Forall_forall. intros p Hp. apply in_map_iff in Hp.
    destruct Hp as (k & <- & _). apply Nat.mod_upper_bound. lia.
Qed.

(** X17.  When every draw of the generator gives as many positions as
    asked for, each among the candidates, and every bar that is asked
    for something holds something, [episode_idxes_sampled_from_pdf]
    returns the bars' contributions side by side: bar [i], which holds
    the indices from [sum(bar_heights[:i])] on, contributes
    [max(0, round(pdf[i]))] of its own indices in increasing order, and
    every one of its indices at least once when it is asked for at least
    its height. *)
Theorem resampling_blocks :
  forall (P : Type) (np_round_int : P -> Z)
         (draw : N -> nat -> nat -> list nat * N)
         (pdf : list P) (bar_heights : list nat) (s : N),
    draws_in_range draw ->
    bars_can_serve (map np_round_int pdf) bar_heights ->
    exists blocks s',
      episode_idxes_sampled_from_pdf P np_round_int draw pdf bar_heights s
      = (Sampled (concat blocks), s')
      /\ bar_blocks 0 bar_heights (map np_round_int pdf) blocks.
Proof.
  intros P np_round_int draw pdf bar_heights s Hdraw Hserve.
  destruct (sample_bars_blocks draw Hdraw (map np_round_int pdf) bar_heights s
              Hserve) as (blocks & s' & Hrun & Hblocks).
  exists blocks, s'. split; [|exact Hblocks].
  unfold episode_idxes_sampled_from_pdf.
  rewrite (Forall2_length Hserve), Nat.eqb_refl. cbn [negb].
  now rewrite Hrun.
Qed.

Lemma resampling_blocks_witness :
  exists blocks s',
    episode_idxes_sampled_from_pdf Z (fun z => z) round_robin
      [2; 0; 5; -1]%Z [3; 2; 2; 4] 0%N
    = (Sampled (concat blocks), s')
    /\ bar_blocks 0 [3; 2; 2; 4] (map (fun z => z) [2; 0; 5; -1]%Z) blocks.
Proof.
  apply (resampling_blocks Z (fun z => z) round_robin
           [2; 0; 5; -1]%Z [3; 2; 2; 4] 0%N).
  - exact round_robin_in_range.
  - repeat constructor; cbn; lia.
Defined.

(** X18.  Under the same conditions the returned indices are in
    non-decreasing order as a whole, each is an index below the total of
    the heights, and their number is the sum of [max(0, round(pdf[i]))]
    over the bars. *)
Theorem resampling_sorted_output :
  forall (P : Type) (np_round_int : P -> Z)
         (draw : N -> nat -> nat -> list nat * N)
         (pdf : list P) (bar_heights : list nat) (s : N),
    draws_in_range draw ->
    bars_can_serve (map np_round_int pdf) bar_heights ->
    exists idxs s',
      episode_idxes_sampled_from_pdf P np_round_int draw pdf bar_heights s
      = (Sampled idxs, s')
      /\ length idxs = list_sum (map asked (map np_round_int pdf))
      /\ StronglySorted le idxs
      /\ Forall (fun x => x < list_sum bar_heights) idxs.
Proof.
  intros P np_round_int draw pdf bar_heights s Hdraw Hserve.
  destruct (sample_bars_blocks draw Hdraw (map np_round_int pdf) bar_heights s
              Hserve) as (blocks & s' & Hrun & Hblocks).
  exists (concat blocks), s'. split; [|split; [|split]].
  - unfold episode_idxes_sampled_from_pdf.
    rewrite (Forall2_length Hserve), Nat.eqb_refl. cbn [negb].
    now rewrite Hrun.
  - now apply (bar_blocks_length 0 bar_heights).
  - now apply (bar_blocks_sorted 0 bar_heights (map np_round_int pdf)).
  - pose proof (bar_blocks_range _ _ _ _ Hblocks) as Hrange.
    eapply Forall_impl; [|exact Hrange]. intros x Hx. cbn in Hx. lia.
Qed.

Lemma resampling_sorted_output_witness :
  exists idxs s',
    episode_idxes_sampled_from_pdf Z (fun z => z) round_robin
      [2; 0; 5; -1]%Z [3; 2; 2; 4] 7%N
    = (Sampled idxs, s')
    /\ length idxs = list_sum (map asked (map (fun z => z) [2; 0; 5; -1]%Z))
    /\ StronglySorted le idxs
    /\ Forall (fun x => x < list_sum [3; 2; 2; 4]) idxs.
Proof.
  apply (resampling_sorted_output Z (fun z => z) round_robin
           [2; 0; 5; -1]%Z [3; 2; 2; 4] 7%N).
  - exact round_robin_in_range.
  - repeat constructor; cbn; lia.
Defined.

(** X19.  The first bar that is asked for at least one index and holds
    none stops the call: [np.random.choice] refuses to draw from the
    empty range and the call raises [ValueError], whatever comes
    after that bar. *)
Theorem resampling_empty_bar :
  forall (P : Type) (np_round_int : P -> Z)
         (draw : N -> nat -> nat -> list nat * N)
         (pdf_before : list P) (p : P) (pdf_after : list P)
         (heights_before heights_after : list nat) (s : N),
    draws_in_range draw ->
    bars_can_serve (map np_round_int pdf_before) heights_before ->
    (0 < np_round_int p)%Z ->
    length pdf_after = length heights_after ->
    fst (episode_idxes_sampled_from_pdf P np_round_int draw
           (pdf_before ++ p :: pdf_after)
           (heights_before ++ 0 :: heights_after) s)
    = Raised ValueError.
Proof.
  intros P np_round_int draw pdf_before p pdf_after heights_before
         heights_after s Hdraw Hserve Hp Hafter.
  unfold episode_idxes_sampled_from_pdf.
  rewrite length_map, !length_app. cbn [length].
  pose proof (Forall2_length Hserve) as Hbefore. rewrite length_map in Hbefore.
  rewrite Hbefore, Hafter, Nat.eqb_refl. cbn [negb].
  rewrite map_app. cbn [map].
  pose proof (sample_bars_empty_bar draw Hdraw (map np_round_int pdf_before)
                (np_round_int p) (map np_round_int pdf_after)
                heights_before heights_after s Hserve Hp) as Hrun.
  destruct (sample_bars draw s _ _ 0 _ []) as [[idxs|e] s'];
    cbn [fst] in *; [discriminate | now injection Hrun as ->].
Qed.

Lemma resampling_empty_bar_witness :
  fst (episode_idxes_sampled_from_pdf Z (fun z => z) round_robin
         ([2] ++ 1 :: [4])%Z ([3] ++ 0 :: [5]) 0%N)
  = Raised ValueError.
Proof.
  apply (resampling_empty_bar Z (fun z => z) round_robin
           [2]%Z 1%Z [4]%Z [3] [5] 0%N).
  - exact round_robin_in_range.
  - repeat constructor; cbn; lia.
  - lia.
  - reflexivity.
Defined.

(** X20.  When no draw takes place the generator is left in the state
    it was in: if [pdf] and [bar_heights] differ in length the [assert]
    fails before anything is drawn, and if no bar is asked for a
    positive number of indices the result is the empty list, whatever
    the heights and whatever the generator would have drawn. *)
Theorem resampling_without_draws :
  forall (P : Type) (np_round_int : P -> Z)
         (draw : N -> nat -> nat -> list nat * N)
         (pdf : list P) (bar_heights : list nat) (s : N),
    (length pdf <> length bar_heights ->
     episode_idxes_sampled_from_pdf P np_round_int draw pdf bar_heights s
     = (AssertionError, s))
    /\ (length pdf = length bar_heights ->
        Forall (fun p => (np_round_int p <= 0)%Z) pdf ->
        episode_idxes_sampled_from_pdf P np_round_int draw pdf bar_heights s
        = (Sampled [], s)).
Proof.
  intros P np_round_int draw pdf bar_heights s.
  unfold episode_idxes_sampled_from_pdf. rewrite length_map. split.
  - intros Hneq.
    destruct (Nat.eqb_spec (length pdf) (length bar_heights));
      [contradiction | reflexivity].
  - intros Heq Hall. rewrite Heq, Nat.eqb_refl. cbn [negb].
    rewrite sample_bars_nothing_asked; [reflexivity|].
    apply Forall_forall. intros n Hn. apply in_map_iff in Hn.
    destruct Hn as (p & <- & Hp). rewrite Forall_forall in Hall.
    now apply Hall.
Qed.

(** ** Facts about the histogram *)

Section HistogramFacts.











End HistogramFacts.







Section ExtremeFacts.

Context {F : Type} `{OrderLaws F}.





End ExtremeFacts.



